(** * Attribute reconciliation of Blaze: [ElementAttributesUpdater] and the
    [AttributeHandler] family (attrs.js).

    The development embeds the JavaScript of the attribute updater as Rocq
    functions over an explicit state: the bound DOM element, the handler
    table of the updater and the sequence of events so far.  A [throw]
    keeps the state reached when it happened, as in JavaScript.

    Conventions of the model.
    - A JavaScript object used as a dictionary ([handlers], [newAttrs],
      the attributes of an element) is an association list with distinct
      keys in [for .. in] order, which is the insertion order for
      attribute names.  Names that are array indices, or that shadow a
      member of [Object.prototype] such as [hasOwnProperty], are outside
      the model.
    - A handler object is a record of its prototype, [name] and [value];
      [handlers[k]] and the local variable [handler] alias the same
      object, so [handler.value = v] is a write into the table.
    - The function-scoped variable [oldValue] of [update] is threaded
      through the iterations of both loops: it is [undefined] on entry
      and keeps its last value where an iteration does not assign it.
    - The DOM is the part the handlers touch: attributes, namespaced
      attributes, properties assigned by name, the [value] property, the
      chain of parent nodes and which node is [document.activeElement].
      [className] reflects the [class] attribute.
    - The trace records each call [handler.update(elem, oldValue, value)]
      made by the updater ([Invoke]) and each call or assignment a handler
      makes on the element ([Call]). *)

From Stdlib Require Import String Ascii List Bool Arith ZArith Lia.
Import ListNotations.
Open Scope string_scope.
Open Scope list_scope.

Set Implicit Arguments.

(** ** JavaScript values *)

Inductive jsval : Type :=
| VUndefined
| VNull
| VBool (b : bool)
| VStr (s : string)
| VObj (ref : nat).

(** [a === b] *)
Definition strict_eq (a b : jsval) : bool :=
  match a, b with
  | VUndefined, VUndefined => true
  | VNull, VNull => true
  | VBool x, VBool y => Bool.eqb x y
  | VStr x, VStr y => String.eqb x y
  | VObj x, VObj y => Nat.eqb x y
  | _, _ => false
  end.

(** [a !== b] *)
Definition strict_neq (a b : jsval) : bool := negb (strict_eq a b).

(** [v == null] *)
Definition loose_eq_null (v : jsval) : bool :=
  match v with
  | VUndefined | VNull => true
  | _ => false
  end.

(** ToBoolean *)
Definition truthy (v : jsval) : bool :=
  match v with
  | VUndefined | VNull => false
  | VBool b => b
  | VStr s => negb (String.eqb s "")
  | VObj _ => true
  end.

(** ToString, as the DOM applies it to the value argument of
    [setAttribute]; [VObj] stands for a plain object. *)
Definition ToString (v : jsval) : string :=
  match v with
  | VUndefined => "undefined"
  | VNull => "null"
  | VBool true => "true"
  | VBool false => "false"
  | VStr s => s
  | VObj _ => "[object Object]"
  end.

Definition is_string_or_null (v : jsval) : bool :=
  match v with
  | VNull | VStr _ => true
  | _ => false
  end.

(** ** Strings: [split(' ')] and [join(' ')] *)

Definition space : ascii := " "%char.

Fixpoint split (s : string) : list string :=
  match s with
  | EmptyString => [EmptyString]
  | String c s' =>
      if Ascii.eqb c space then EmptyString :: split s'
      else match split s' with
           | [] => [String c EmptyString]
           | w :: ws => String c w :: ws
           end
  end.

Fixpoint join (l : list string) : string :=
  match l with
  | [] => EmptyString
  | [x] => x
  | x :: xs => x ++ " " ++ join xs
  end.

(** ** Array helpers of attrs.js *)

(** return an array with the falsy elements removed *)
Definition _arrayCompact (array : list string) : list string :=
  filter (fun item => negb (String.eqb item "")) array.

Definition _arrayContains (array : list string) (item : string) : bool :=
  existsb (fun x => String.eqb x item) array.

Definition _arrayWithout (array : list string) (item : string) : list string :=
  filter (fun x => negb (String.eqb x item)) array.

(** ** Objects used as dictionaries *)

Section Dict.
Variables (K V : Type) (keq : K -> K -> bool).

Fixpoint lookup (k : K) (d : list (K * V)) : option V :=
  match d with
  | [] => None
  | (k', v) :: d' => if keq k' k then Some v else lookup k d'
  end.

Definition hasOwnProperty (d : list (K * V)) (k : K) : bool :=
  match lookup k d with
  | Some _ => true
  | None => false
  end.

(** [d[k] = v]: an existing key keeps its place, a new one goes last *)
Fixpoint assign (k : K) (v : V) (d : list (K * V)) : list (K * V) :=
  match d with
  | [] => [(k, v)]
  | (k', v') :: d' =>
      if keq k' k then (k', v) :: d' else (k', v') :: assign k v d'
  end.

(** [delete d[k]] *)
Fixpoint delete (k : K) (d : list (K * V)) : list (K * V) :=
  match d with
  | [] => []
  | (k', v') :: d' =>
      if keq k' k then delete k d' else (k', v') :: delete k d'
  end.

Definition keys (d : list (K * V)) : list K := map fst d.
End Dict.

Definition nskey_eqb (a b : string * string) : bool :=
  String.eqb (fst a) (fst b) && String.eqb (snd a) (snd b).

(** ** The DOM element *)

Record element : Type := mkElement {
  tagName : string;
  (** ['ownerSVGElement' in elem] *)
  ownerSVGElement : bool;
  attributes : list (string * string);
  (** keyed by namespace and local name *)
  attributesNS : list ((string * string) * string);
  (** properties assigned through [element[name] = ...] *)
  properties : list (string * bool);
  (** the [value] property of a form control *)
  valueProp : string;
  (** [elem === document.activeElement] *)
  isActiveElement : bool;
  (** the chain of [parentNode]s, nearest first: tag name and whether the
      node is [document.activeElement] *)
  parentNodes : list (string * bool)
}.

(** The external calls the handlers make on the element, and the
    invocations of [handler.update] made by the updater. *)
Inductive call : Type :=
| removeAttribute (name : string)
| setAttribute (name : string) (v : jsval)
| removeAttributeNS (ns name : string)
| setAttributeNS (ns name : string) (v : jsval)
| setClassName (v : string)
| setProperty (name : string) (b : bool)
| setValueProp (v : jsval).

Inductive event : Type :=
| Invoke (k : string) (oldValue v : jsval)
| Call (c : call).

Definition set_attributes (e : element) (a : list (string * string)) : element :=
  mkElement (tagName e) (ownerSVGElement e) a (attributesNS e) (properties e)
            (valueProp e) (isActiveElement e) (parentNodes e).

Definition set_attributesNS (e : element)
  (a : list ((string * string) * string)) : element :=
  mkElement (tagName e) (ownerSVGElement e) (attributes e) a (properties e)
            (valueProp e) (isActiveElement e) (parentNodes e).

Definition set_properties (e : element) (p : list (string * bool)) : element :=
  mkElement (tagName e) (ownerSVGElement e) (attributes e) (attributesNS e) p
            (valueProp e) (isActiveElement e) (parentNodes e).

Definition set_valueProp (e : element) (v : string) : element :=
  mkElement (tagName e) (ownerSVGElement e) (attributes e) (attributesNS e)
            (properties e) v (isActiveElement e) (parentNodes e).

(** what a call does to the element *)
Definition apply_call (c : call) (e : element) : element :=
  match c with
  | removeAttribute n => set_attributes e (delete String.eqb n (attributes e))
  | setAttribute n v =>
      set_attributes e (assign String.eqb n (ToString v) (attributes e))
  | removeAttributeNS ns n =>
      set_attributesNS e (delete nskey_eqb (ns, n) (attributesNS e))
  | setAttributeNS ns n v =>
      set_attributesNS e (assign nskey_eqb (ns, n) (ToString v) (attributesNS e))
  | setClassName v =>
      (* [className] of an SVG element is read-only *)
      if ownerSVGElement e then e
      else set_attributes e (assign String.eqb "class" v (attributes e))
  | setProperty n b => set_properties e (assign String.eqb n b (properties e))
  | setValueProp v =>
      (* the setter treats [null] as the empty string *)
      set_valueProp e (match v with VNull => "" | _ => ToString v end)
  end.

(** the [class] attribute as a string, [""] when absent *)
Definition classAttr (e : element) : string :=
  match lookup String.eqb "class" (attributes e) with
  | Some s => s
  | None => ""
  end.

(** [element.className]: a string on HTML elements, an [SVGAnimatedString]
    object on SVG elements *)
Definition className (e : element) : jsval :=
  if ownerSVGElement e then VObj 0 else VStr (classAttr e).

(** [element.className.baseVal] *)
Definition className_baseVal (e : element) : jsval :=
  if ownerSVGElement e then VStr (classAttr e) else VUndefined.

(** the live token sequence of the class list *)
Definition tokens (s : string) : list string := _arrayCompact (split s).
Definition classList (e : element) : list string := tokens (classAttr e).

(** ** Handlers *)

(** the handler types of attrs.js, each a prototype in the chain below
    [AttributeHandler] *)
Inductive handlerType : Type :=
| AttributeHandler
| BaseClassHandler
| ClassHandler
| SVGClassHandler
| BooleanHandler
| ValueHandler
| XlinkHandler.

(** an instance: [new T(name, value)] *)
Record handler : Type := new {
  proto : handlerType;
  name : string;
  value : jsval
}.

(** [handler.value = v] *)
Definition set_value (h : handler) (v : jsval) : handler :=
  new (proto h) (name h) v.

(** ** State, exceptions and the monad of the embedding *)

Inductive exn : Type :=
| TypeError
| Error (msg : string).

Inductive outcome (A : Type) : Type :=
| Return (a : A)
| Throw (e : exn).
Arguments Throw {A} e.

Record state : Type := mkState {
  elem : element;
  handlers : list (string * handler);
  trace : list event
}.

Definition M (A : Type) : Type := state -> outcome A * state.

Definition ret {A} (a : A) : M A := fun s => (Return a, s).
Definition throw {A} (e : exn) : M A := fun s => (Throw e, s).
Definition bind {A B} (m : M A) (f : A -> M B) : M B :=
  fun s => match m s with
           | (Return a, s') => f a s'
           | (Throw e, s') => (Throw e, s')
           end.

Notation "x <- m ;; k" := (bind m (fun x => k))
  (at level 61, m at next level, right associativity).
Notation "m ;;; k" := (bind m (fun _ => k))
  (at level 61, right associativity).

Definition get_elem : M element := fun s => (Return (elem s), s).
Definition get_handlers : M (list (string * handler)) :=
  fun s => (Return (handlers s), s).
Definition put_handlers (hs : list (string * handler)) : M unit :=
  fun s => (Return tt, mkState (elem s) hs (trace s)).
Definition emit (ev : event) : M unit :=
  fun s => (Return tt, mkState (elem s) (handlers s) (trace s ++ [ev])).

(** an external call on the element: performed and recorded *)
Definition dom (c : call) : M unit :=
  fun s => (Return tt,
            mkState (apply_call c (elem s)) (handlers s) (trace s ++ [Call c])).

(** [for (var k in ...)] with the function-scoped variable [oldValue]
    threaded through the iterations *)
Fixpoint for_in {A} (l : list A) (body : A -> jsval -> M jsval)
  (oldValue : jsval) : M jsval :=
  match l with
  | [] => ret oldValue
  | x :: l' => ov <- body x oldValue ;; for_in l' body ov
  end.

(** *** AttributeHandler.prototype.update *)

Definition AttributeHandler_update (this : handler) (oldValue v : jsval)
  : M unit :=
  if strict_eq v VNull then
    if strict_neq oldValue VNull then dom (removeAttribute (name this))
    else ret tt
  else dom (setAttribute (name this) v).

(** *** BaseClassHandler *)

(** [v.split(' ')]: only strings have the method *)
Definition js_split (v : jsval) : M (list string) :=
  match v with
  | VStr s => ret (split s)
  | _ => throw TypeError
  end.

(** [v ? _arrayCompact(v.split(' ')) : []] *)
Definition classesOf (v : jsval) : M (list string) :=
  if truthy v then l <- js_split v ;; ret (_arrayCompact l) else ret [].

(** the first loop: drop the old classes that are not new classes *)
Fixpoint removeOld (oldClasses newClasses classes : list string)
  : list string :=
  match oldClasses with
  | [] => classes
  | c :: rest =>
      removeOld rest newClasses
        (if negb (_arrayContains newClasses c) then _arrayWithout classes c
         else classes)
  end.

(** the second loop: push the new classes that are neither old nor live;
    [todo] is the part of [newClasses] still to visit *)
Fixpoint addNew (oldClasses todo classes : list string) : list string :=
  match todo with
  | [] => classes
  | c :: rest =>
      addNew oldClasses rest
        (if negb (_arrayContains oldClasses c) && negb (_arrayContains classes c)
         then classes ++ [c] else classes)
  end.

Definition diffClasses (oldClasses newClasses classes : list string)
  : list string :=
  addNew oldClasses newClasses (removeOld oldClasses newClasses classes).

Definition missingMethods : exn :=
  Error "Missing methods in subclass of 'BaseClassHandler'".

(** [getCurrentValue] and [setValue] are what the lookup of
    [this.getCurrentValue] and [this.setValue] finds, [None] when the
    prototype chain defines none *)
Definition BaseClassHandler_update
  (getCurrentValue : option (element -> jsval))
  (setValue : option (string -> M unit))
  (oldValue v : jsval) : M unit :=
  match getCurrentValue, setValue with
  | Some getCurrentValue, Some setValue =>
      oldClasses <- classesOf oldValue ;;
      newClasses <- classesOf v ;;
      element <- get_elem ;;
      cur <- js_split (getCurrentValue element) ;;
      let classes := _arrayCompact cur in
      setValue (join (diffClasses oldClasses newClasses classes))
  | _, _ => throw missingMethods
  end.

Definition getCurrentValue_of (t : handlerType) : option (element -> jsval) :=
  match t with
  | ClassHandler => Some className
  | SVGClassHandler => Some className_baseVal
  | _ => None
  end.

Definition setValue_of (t : handlerType) : option (string -> M unit) :=
  match t with
  | ClassHandler => Some (fun cn => dom (setClassName cn))
  | SVGClassHandler => Some (fun cn => dom (setAttribute "class" (VStr cn)))
  | _ => None
  end.

(** *** BooleanHandler *)

Definition expectedInputOrOption : exn :=
  Error "Expected INPUT or OPTION element".

(** is the element part of a control which is focused? *)
Definition BooleanHandler_focused : M bool :=
  element <- get_elem ;;
  if String.eqb (tagName element) "INPUT" then ret (isActiveElement element)
  else if String.eqb (tagName element) "OPTION" then
    (* find the containing SELECT element *)
    match find (fun p => String.eqb (fst p) "SELECT") (parentNodes element) with
    | Some selectEl => ret (snd selectEl)
    | None => ret false
    end
  else throw expectedInputOrOption.

Definition BooleanHandler_update (this : handler) (oldValue v : jsval)
  : M unit :=
  focused <- BooleanHandler_focused ;;
  if negb focused then
    if loose_eq_null v then
      if negb (loose_eq_null oldValue) then dom (setProperty (name this) false)
      else ret tt
    else dom (setProperty (name this) true)
  else ret tt.

(** *** ValueHandler *)

Definition ValueHandler_update (this : handler) (oldValue v : jsval)
  : M unit :=
  element <- get_elem ;;
  let focused := isActiveElement element in
  if negb focused then dom (setValueProp v) else ret tt.

(** *** XlinkHandler *)

Definition NS : string := "http://www.w3.org/1999/xlink".

Definition XlinkHandler_update (this : handler) (oldValue v : jsval)
  : M unit :=
  if strict_eq v VNull then
    if strict_neq oldValue VNull then dom (removeAttributeNS NS (name this))
    else ret tt
  else dom (setAttributeNS NS (name this) (value this)).

(** [this.update(element, oldValue, v)], resolved along the prototype
    chain of [this] *)
Definition handler_update (this : handler) (oldValue v : jsval) : M unit :=
  match proto this with
  | AttributeHandler => AttributeHandler_update this oldValue v
  | BaseClassHandler | ClassHandler | SVGClassHandler =>
      BaseClassHandler_update (getCurrentValue_of (proto this))
                              (setValue_of (proto this)) oldValue v
  | BooleanHandler => BooleanHandler_update this oldValue v
  | ValueHandler => ValueHandler_update this oldValue v
  | XlinkHandler => XlinkHandler_update this oldValue v
  end.

(** *** makeAttributeHandler *)

(** cross-browser version of [instanceof SVGElement] *)
Definition isSVGElement (e : element) : bool := ownerSVGElement e.

Definition makeAttributeHandler (e : element) (nm : string) (v : jsval)
  : handler :=
  if String.eqb nm "class" then
    if isSVGElement e then new SVGClassHandler nm v
    else new ClassHandler nm v
  else if (String.eqb (tagName e) "OPTION" && String.eqb nm "selected")
       || (String.eqb (tagName e) "INPUT" && String.eqb nm "checked") then
    new BooleanHandler nm v
  else if (String.eqb (tagName e) "TEXTAREA" || String.eqb (tagName e) "INPUT")
       && String.eqb nm "value" then
    new ValueHandler nm v
  else if String.eqb (substring 0 6 nm) "xlink:" then
    new XlinkHandler (substring 6 (String.length nm - 6) nm) v
  else
    new AttributeHandler nm v.

(** ** ElementAttributesUpdater *)

Definition ElementAttributesUpdater (e : element) : state :=
  mkState e [] [].

(** the call [handler.update(elem, oldValue, v)] made by the updater for
    the handler stored under [k] *)
Definition invoke (k : string) (h : handler) (oldValue v : jsval) : M unit :=
  emit (Invoke k oldValue v) ;;; handler_update h oldValue v.

(** body of the first loop, [for (var k in handlers)] *)
Definition removeStep (newAttrs : list (string * jsval)) (k : string)
  (oldValue : jsval) : M jsval :=
  hs <- get_handlers ;;
  match lookup String.eqb k hs with
  | None => ret oldValue (* a deleted property is not visited *)
  | Some h =>
      if negb (hasOwnProperty String.eqb newAttrs k) then
        let oldValue := value h in
        let h := set_value h VNull in
        put_handlers (assign String.eqb k h hs) ;;;
        invoke k h oldValue VNull ;;;
        hs <- get_handlers ;;
        put_handlers (delete String.eqb k hs) ;;;
        ret oldValue
      else ret oldValue
  end.

(** body of the second loop, [for (var k in newAttrs)] *)
Definition updateStep (kv : string * jsval) (oldValue : jsval) : M jsval :=
  let k := fst kv in
  let v := snd kv in
  hs <- get_handlers ;;
  ho <- match lookup String.eqb k hs with
        | None =>
            if strict_neq v VNull then
              e <- get_elem ;;
              let h := makeAttributeHandler e k v in
              put_handlers (assign String.eqb k h hs) ;;;
              ret (Some h, VNull)
            else ret (None, oldValue)
        | Some h => ret (Some h, value h)
        end ;;
  let handler := fst ho in
  let oldValue := snd ho in
  if strict_neq oldValue v then
    match handler with
    | None => throw TypeError (* [handler] is still [null] *)
    | Some h =>
        let h := set_value h v in
        hs <- get_handlers ;;
        put_handlers (assign String.eqb k h hs) ;;;
        invoke k h oldValue v ;;;
        (if strict_eq v VNull then
           hs <- get_handlers ;;
           put_handlers (delete String.eqb k hs)
         else ret tt) ;;;
        ret oldValue
    end
  else ret oldValue.

(** [ElementAttributesUpdater.prototype.update]; [oldValue] is
    [undefined] on entry *)
Definition update (newAttrs : list (string * jsval)) : M unit :=
  hs <- get_handlers ;;
  oldValue <- for_in (keys hs) (removeStep newAttrs) VUndefined ;;
  for_in newAttrs updateStep oldValue ;;;
  ret tt.

(** changes made from outside the updater between two calls *)
Definition set_isActiveElement (b : bool) (s : state) : state :=
  let e := elem s in
  mkState (mkElement (tagName e) (ownerSVGElement e) (attributes e)
                     (attributesNS e) (properties e) (valueProp e) b
                     (parentNodes e))
          (handlers s) (trace s).

Definition div : element := mkElement "DIV" false [] [] [] "" false [].
Definition input (focused : bool) : element :=
  mkElement "INPUT" false [] [] [] "" focused [].
Definition withClass (e : element) (cn : string) : element :=
  set_attributes e (assign String.eqb "class" cn (attributes e)).

(** ** Prototypes: [_assign] and [AttributeHandler.extend] *)

(** An object as the inheritance code sees it: its own enumerable
    properties, and those of its prototypes, nearest first.  [_assign] is
    applied to a target distinct from its source, as [extend] does. *)
Record object (V : Type) : Type := mkObject {
  own : list (string * V);
  inherited : list (list (string * V))
}.

(** an object literal *)
Definition literal {V} (d : list (string * V)) : object V := mkObject d [].

(** [o[k]], [None] for [undefined] *)
Fixpoint getChain {V} (k : string) (chain : list (list (string * V)))
  : option V :=
  match chain with
  | [] => None
  | d :: ps =>
      match lookup String.eqb k d with
      | Some v => Some v
      | None => getChain k ps
      end
  end.

Definition get {V} (o : object V) (k : string) : option V :=
  getChain k (own o :: inherited o).

(** the names [for (var k in o)] visits: own names first, then those of
    each prototype that were not met before *)
Fixpoint enumerate {V} (seen : list string) (chain : list (list (string * V)))
  : list string :=
  match chain with
  | [] => []
  | d :: ps =>
      let ks := filter (fun k => negb (_arrayContains seen k)) (keys d) in
      ks ++ enumerate (seen ++ ks) ps
  end.

Definition forInKeys {V} (o : object V) : list string :=
  enumerate [] (own o :: inherited o).

(** [o[k] = v] *)
Definition setOwn {V} (o : object V) (k : string) (v : V) : object V :=
  mkObject (assign String.eqb k v (own o)) (inherited o).

(** Copy src's own, enumerable properties onto tgt and return tgt. *)
Definition _assign {V} (tgt src : object V) : object V :=
  fold_left
    (fun tgt k =>
       if hasOwnProperty String.eqb (own src) k then
         match get src k with
         | Some v => setOwn tgt k v
         | None => tgt
         end
       else tgt)
    (forInKeys src) tgt.

(** [new T(name, value)] for a handler type with prototype [T]: the
    constructor sets [name] and [value] on the new object *)
Definition construct {V} (T : object V) (nm v : V) : object V :=
  mkObject [("name", nm); ("value", v)] (own T :: inherited T).

(** [curType.extend(options)], a type being given by its prototype;
    [options] is [None] when it is omitted *)
Definition extend {V} (undefined : V) (curType : object V)
  (options : option (object V)) : object V :=
  let subType_prototype := construct curType undefined undefined in
  match options with
  | Some options => _assign subType_prototype options
  | None => subType_prototype
  end.

(** the functions attrs.js puts on prototypes *)
Inductive method : Type :=
| m_AttributeHandler_update
| m_BaseClassHandler_update
| m_ClassHandler_getCurrentValue
| m_ClassHandler_setValue
| m_SVGClassHandler_getCurrentValue
| m_SVGClassHandler_setValue
| m_BooleanHandler_update
| m_BooleanHandler_focused
| m_ValueHandler_update
| m_XlinkHandler_update.

Inductive member : Type :=
| MValue (v : jsval)
| MFunction (f : method).

Definition extendHandler := extend (MValue VUndefined).

Definition AttributeHandler_prototype : object member :=
  literal [("update", MFunction m_AttributeHandler_update)].

Definition BaseClassHandler_prototype : object member :=
  extendHandler AttributeHandler_prototype
    (Some (literal [("update", MFunction m_BaseClassHandler_update)])).

Definition ClassHandler_prototype : object member :=
  extendHandler BaseClassHandler_prototype
    (Some (literal
             [("getCurrentValue", MFunction m_ClassHandler_getCurrentValue);
              ("setValue", MFunction m_ClassHandler_setValue)])).

Definition SVGClassHandler_prototype : object member :=
  extendHandler BaseClassHandler_prototype
    (Some (literal
             [("getCurrentValue", MFunction m_SVGClassHandler_getCurrentValue);
              ("setValue", MFunction m_SVGClassHandler_setValue)])).

Definition BooleanHandler_prototype : object member :=
  extendHandler AttributeHandler_prototype
    (Some (literal [("update", MFunction m_BooleanHandler_update);
                    ("focused", MFunction m_BooleanHandler_focused)])).

Definition ValueHandler_prototype : object member :=
  extendHandler AttributeHandler_prototype
    (Some (literal [("update", MFunction m_ValueHandler_update)])).

Definition XlinkHandler_prototype : object member :=
  extendHandler AttributeHandler_prototype
    (Some (literal [("update", MFunction m_XlinkHandler_update)])).

Definition prototypeOf (t : handlerType) : object member :=
  match t with
  | AttributeHandler => AttributeHandler_prototype
  | BaseClassHandler => BaseClassHandler_prototype
  | ClassHandler => ClassHandler_prototype
  | SVGClassHandler => SVGClassHandler_prototype
  | BooleanHandler => BooleanHandler_prototype
  | ValueHandler => ValueHandler_prototype
  | XlinkHandler => XlinkHandler_prototype
  end.

(** the handler object [new T(name, value)] *)
Definition instanceOf (h : handler) : object member :=
  construct (prototypeOf (proto h)) (MValue (VStr (name h))) (MValue (value h)).

(** [this.getCurrentValue] and [this.setValue] as [BaseClassHandler.update]
    reads them off the instance *)
Definition resolveGetCurrentValue (this : object member)
  : option (element -> jsval) :=
  match get this "getCurrentValue" with
  | Some (MFunction m_ClassHandler_getCurrentValue) => Some className
  | Some (MFunction m_SVGClassHandler_getCurrentValue) => Some className_baseVal
  | _ => None
  end.

Definition resolveSetValue (this : object member)
  : option (string -> M unit) :=
  match get this "setValue" with
  | Some (MFunction m_ClassHandler_setValue) =>
      Some (fun cn => dom (setClassName cn))
  | Some (MFunction m_SVGClassHandler_setValue) =>
      Some (fun cn => dom (setAttribute "class" (VStr cn)))
  | _ => None
  end.

(** [handler.update(elem, oldValue, v)] with [update] looked up on the
    instance; calling what is not an update function is a TypeError *)
Definition callUpdate (h : handler) (oldValue v : jsval) : M unit :=
  match get (instanceOf h) "update" with
  | Some (MFunction m_AttributeHandler_update) =>
      AttributeHandler_update h oldValue v
  | Some (MFunction m_BaseClassHandler_update) =>
      BaseClassHandler_update (resolveGetCurrentValue (instanceOf h))
                              (resolveSetValue (instanceOf h)) oldValue v
  | Some (MFunction m_BooleanHandler_update) => BooleanHandler_update h oldValue v
  | Some (MFunction m_ValueHandler_update) => ValueHandler_update h oldValue v
  | Some (MFunction m_XlinkHandler_update) => XlinkHandler_update h oldValue v
  | _ => throw TypeError
  end.

(** ** Handlebars: [registerHelper] and [_escape] *)

(** [Handlebars.registerHelper]: [this._globalHelpers[name] = func] *)
Definition registerHelper {F} (nm : string) (func : F)
  (_globalHelpers : list (string * F)) : list (string * F) :=
  assign String.eqb nm func _globalHelpers.

(** the double quote character *)
Definition quote : ascii := "034"%char.

Definition escape_map : list (string * string) :=
  [("<", "&lt;");
   (">", "&gt;");
   (String quote "", "&quot;");
   ("'", "&#x27;");
   ("`", "&#x60;");
   ("&", "&amp;")].

(** [escape_map[c]], converted to a string as [replace] does with the
    result of its callback *)
Definition escape_one (c : ascii) : string :=
  match lookup String.eqb (String c "") escape_map with
  | Some e => e
  | None => "undefined"
  end.

(** the character class of the regular expression *)
Definition special (c : ascii) : bool :=
  existsb (Ascii.eqb c)
    ["&"%char; "<"%char; ">"%char; quote; "'"%char; "`"%char].

(** [x.replace(re, escape_one)] on a string, [re] matching every
    character of the class *)
Fixpoint replace_special (x : string) : string :=
  match x with
  | EmptyString => EmptyString
  | String c r =>
      if special c then escape_one c ++ replace_special r
      else String c (replace_special r)
  end.

(** [UI._escape = Handlebars._escape]: only strings have [replace] *)
Definition _escape (x : jsval) : outcome string :=
  match x with
  | VStr s => Return (replace_special s)
  | _ => Throw TypeError
  end.

(** ** ExpectationManager (livedata_tests.js) *)

(** the manager, with the number of calls made to [onComplete] *)
Record ExpectationManager : Type := mkExpectationManager {
  closed : bool;
  dead : bool;
  outstanding : Z;
  onCompleteCalls : nat
}.

Definition newExpectationManager : ExpectationManager :=
  mkExpectationManager false false 0 0.

(** [onComplete] is the caller's function: its calls are counted, and it
    is taken to return without calling back into the manager *)
Definition _check_complete (self : ExpectationManager) : ExpectationManager :=
  if Z.eqb (outstanding self) 0 && closed self && negb (dead self) then
    mkExpectationManager (closed self) true (outstanding self)
                         (S (onCompleteCalls self))
  else self.

Definition tooLate : exn :=
  Error "Too late to add more expectations to the test".

(** [expect(...)]: registers one expectation; the callback it returns is
    [expectation] below *)
Definition expect (self : ExpectationManager)
  : outcome unit * ExpectationManager :=
  if closed self then (Throw tooLate, self)
  else (Return tt,
        mkExpectationManager (closed self) (dead self)
                             (outstanding self + 1) (onCompleteCalls self)).

(** a call of the function returned by [expect]; [check] is the outcome
    of comparing the arguments with what was expected *)
Definition expectation (check : outcome unit) (self : ExpectationManager)
  : outcome unit * ExpectationManager :=
  match check with
  | Throw e => (Throw e, self)
  | Return _ =>
      (Return tt,
       _check_complete
         (mkExpectationManager (closed self) (dead self)
                               (outstanding self - 1) (onCompleteCalls self)))
  end.

Definition done (self : ExpectationManager) : ExpectationManager :=
  _check_complete
    (mkExpectationManager true (dead self) (outstanding self)
                          (onCompleteCalls self)).

Definition cancel (self : ExpectationManager) : ExpectationManager :=
  mkExpectationManager (closed self) true (outstanding self)
                       (onCompleteCalls self).

(** what a test does with a manager *)
Inductive emCall : Type :=
| CallExpect
| CallExpectation (check : outcome unit)
| CallDone
| CallCancel.

Definition emStep (self : ExpectationManager) (c : emCall)
  : ExpectationManager :=
  match c with
  | CallExpect => snd (expect self)
  | CallExpectation check => snd (expectation check self)
  | CallDone => done self
  | CallCancel => cancel self
  end.

Definition emRun (cs : list emCall) (self : ExpectationManager)
  : ExpectationManager :=
  fold_left emStep cs self.

(** * Definitions used by the statements and proofs *)

Fixpoint noSpace (s : string) : bool :=
  match s with
  | EmptyString => true
  | String c s' => negb (Ascii.eqb c space) && noSpace s'
  end.

(** a class token: not empty, no space inside *)
Definition isToken (s : string) : bool :=
  negb (String.eqb s "") && noSpace s.

(** the tokens [classesOf] finds in a string or [null] *)
Definition tokensOf (v : jsval) : list string :=
  match v with
  | VStr s => tokens s
  | _ => []
  end.

(** the state after one recorded call *)
Definition after (c : call) (s : state) : state :=
  mkState (apply_call c (elem s)) (handlers s) (trace s ++ [Call c]).

(** the string the class handlers write back *)
Definition newClassName (oldValue v : jsval) (e : element) : string :=
  join (diffClasses (tokensOf oldValue) (tokensOf v) (classList e)).

Definition effect (s s' : state) (r : outcome unit) : Prop :=
  s' = s \/ exists c, r = Return tt /\ s' = after c s.

Definition with_handlers (s : state) (hs : list (string * handler)) : state :=
  mkState (elem s) hs (trace s).

(** the changed case shared by both loops: write the value into the
    handler under [k], call its [update], drop the entry when the value is
    [null] *)
Definition changed (k : string) (h : handler) (oldValue v : jsval)
  (s : state) : outcome jsval * state :=
  match invoke k h oldValue v
          (with_handlers s (assign String.eqb k h (handlers s))) with
  | (Return _, s2) =>
      (Return oldValue,
       if strict_eq v VNull
       then with_handlers s2 (delete String.eqb k (handlers s2))
       else s2)
  | (Throw e, s2) => (Throw e, s2)
  end.

Definition run_calls (calls : list call) (e : element) : element :=
  fold_left (fun e c => apply_call c e) calls e.

(** what no call of a handler changes *)
Definition sameNode (e e' : element) : Prop :=
  tagName e' = tagName e
  /\ ownerSVGElement e' = ownerSVGElement e
  /\ isActiveElement e' = isActiveElement e
  /\ parentNodes e' = parentNodes e.

(** the cases of the second loop body *)
Inductive updateStep_case (k : string) (v oldValue : jsval) (s : state)
  (r : outcome jsval) (s' : state) : Prop :=
| US_same (h : handler) :
    lookup String.eqb k (handlers s) = Some h -> value h = v ->
    r = Return v -> s' = s ->
    updateStep_case k v oldValue s r s'
| US_null_skip :
    lookup String.eqb k (handlers s) = None -> v = VNull ->
    oldValue = VNull -> r = Return VNull -> s' = s ->
    updateStep_case k v oldValue s r s'
| US_null_throw :
    lookup String.eqb k (handlers s) = None -> v = VNull ->
    oldValue <> VNull -> r = Throw TypeError -> s' = s ->
    updateStep_case k v oldValue s r s'
| US_tracked (h : handler) :
    lookup String.eqb k (handlers s) = Some h -> value h <> v ->
    changed k (set_value h v) (value h) v s = (r, s') ->
    updateStep_case k v oldValue s r s'
| US_fresh :
    lookup String.eqb k (handlers s) = None -> v <> VNull ->
    changed k (makeAttributeHandler (elem s) k v) VNull v s = (r, s') ->
    updateStep_case k v oldValue s r s'.

(** the cases of the first loop body *)
Inductive removeStep_case (newAttrs : list (string * jsval)) (k : string)
  (oldValue : jsval) (s : state) (r : outcome jsval) (s' : state) : Prop :=
| RS_deleted :
    lookup String.eqb k (handlers s) = None ->
    r = Return oldValue -> s' = s ->
    removeStep_case newAttrs k oldValue s r s'
| RS_kept (h : handler) :
    lookup String.eqb k (handlers s) = Some h -> In k (keys newAttrs) ->
    r = Return oldValue -> s' = s ->
    removeStep_case newAttrs k oldValue s r s'
| RS_removed (h : handler) :
    lookup String.eqb k (handlers s) = Some h -> ~ In k (keys newAttrs) ->
    changed k (set_value h VNull) (value h) VNull s = (r, s') ->
    removeStep_case newAttrs k oldValue s r s'.

(** the invocations of [update] recorded for the handler under [k] *)
Definition invocations_of (k : string) (t : list event) : list event :=
  filter (fun ev => match ev with
                    | Invoke k' _ _ => String.eqb k' k
                    | Call _ => false
                    end) t.

(** the part of the trace added between two states *)
Definition extends (s s' : state) (t : list event) : Prop :=
  trace s' = trace s ++ t.

(** every tracked handler remembers a value other than [null] *)
Definition tracked_nonnull (s : state) : Prop :=
  forall k h, lookup String.eqb k (handlers s) = Some h -> value h <> VNull.

(** the entry of [k] once the loop over [newAttrs] has returned *)
Definition expected_handler (s : state) (newAttrs : list (string * jsval))
  (k : string) : option handler :=
  match lookup String.eqb k newAttrs with
  | None => lookup String.eqb k (handlers s)
  | Some v =>
      if strict_eq v VNull then None
      else Some match lookup String.eqb k (handlers s) with
                | Some h => set_value h v
                | None => makeAttributeHandler (elem s) k v
                end
  end.

(** the invocations made for [k] by the loop over [newAttrs] *)
Definition expected_invocations (s : state) (newAttrs : list (string * jsval))
  (k : string) : list event :=
  match lookup String.eqb k newAttrs with
  | None => []
  | Some v =>
      match lookup String.eqb k (handlers s) with
      | Some h => if strict_eq (value h) v then [] else [Invoke k (value h) v]
      | None => if strict_eq v VNull then [] else [Invoke k VNull v]
      end
  end.

(** [k] is visited by the first loop and is no key of [newAttrs] *)
Definition removed_key (newAttrs : list (string * jsval)) (ks : list string)
  (k : string) : bool :=
  _arrayContains ks k && negb (hasOwnProperty String.eqb newAttrs k).

(** the removal of a tracked name that is no key of [newAttrs]: the
    invocation with the remembered value and [null], then its calls *)
Definition removal_segment (s : state) (newAttrs : list (string * jsval))
  (seg : list event) : Prop :=
  exists k h calls,
    lookup String.eqb k (handlers s) = Some h
    /\ ~ In k (keys newAttrs)
    /\ length calls <= 1
    /\ seg = Invoke k (value h) VNull :: map Call calls.

(** what the second loop records for one entry of [newAttrs]: nothing, or
    one invocation with the entry's value and then its calls *)
Definition update_segment (kv : string * jsval) (seg : list event) : Prop :=
  seg = []
  \/ exists o calls,
      length calls <= 1 /\ seg = Invoke (fst kv) o (snd kv) :: map Call calls.

(** a table that already holds the values of [newAttrs] *)
Definition holds (newAttrs : list (string * jsval)) (s : state) : Prop :=
  forall k, match lookup String.eqb k newAttrs with
            | Some v =>
                if strict_eq v VNull
                then lookup String.eqb k (handlers s) = None
                else exists h, lookup String.eqb k (handlers s) = Some h
                               /\ value h = v
            | None => lookup String.eqb k (handlers s) = None
            end.

(** all values of the map are other than [null] *)
Definition noNull (newAttrs : list (string * jsval)) : bool :=
  forallb (fun kv => strict_neq (snd kv) VNull) newAttrs.

(** [BooleanHandler.focused] on the elements it is made for *)
Definition focusedControl (e : element) : bool :=
  if String.eqb (tagName e) "INPUT" then isActiveElement e
  else match find (fun p => String.eqb (fst p) "SELECT") (parentNodes e) with
       | Some selectEl => snd selectEl
       | None => false
       end.

(** the calls made when the handler selected for [k], remembering the
    string [str], is updated to [null] *)
Definition removal_calls (e : element) (k : string) (str : string)
  : list call :=
  match proto (makeAttributeHandler e k VNull) with
  | AttributeHandler => [removeAttribute k]
  | XlinkHandler =>
      [removeAttributeNS NS (name (makeAttributeHandler e k VNull))]
  | ClassHandler => [setClassName (newClassName (VStr str) VNull e)]
  | SVGClassHandler =>
      [setAttribute "class" (VStr (newClassName (VStr str) VNull e))]
  | BooleanHandler => if focusedControl e then [] else [setProperty k false]
  | ValueHandler => if isActiveElement e then [] else [setValueProp VNull]
  | BaseClassHandler => []
  end.

(** what the removal leaves of the attribute of [k] on the element *)
Definition cleared (k : string) (str : string) (e : element) : Prop :=
  match proto (makeAttributeHandler e k VNull) with
  | AttributeHandler => lookup String.eqb k (attributes e) = None
  | XlinkHandler =>
      lookup nskey_eqb (NS, name (makeAttributeHandler e k VNull))
        (attributesNS e) = None
  | ClassHandler | SVGClassHandler =>
      forall t, In t (tokens str) -> ~ In t (classList e)
  | BooleanHandler =>
      focusedControl e = false ->
      lookup String.eqb k (properties e) = Some false
  | ValueHandler => isActiveElement e = false -> valueProp e = ""
  | BaseClassHandler => True
  end.

(** the handlers of the table are those [makeAttributeHandler] selects
    for their keys, and they remember strings *)
Definition wf (s : state) : Prop :=
  forall k h,
    lookup String.eqb k (handlers s) = Some h ->
    exists str, h = makeAttributeHandler (elem s) k (VStr str).

Definition after_calls (calls : list call) (s : state) : state :=
  mkState (run_calls calls (elem s)) (handlers s)
          (trace s ++ map Call calls).

(** how [makeAttributeHandler] selects *)
Inductive selection (e : element) (k : string) : handlerType -> string -> Prop :=
| Sel_class :
    k = "class" -> ownerSVGElement e = false ->
    selection e k ClassHandler k
| Sel_svg_class :
    k = "class" -> ownerSVGElement e = true ->
    selection e k SVGClassHandler k
| Sel_boolean :
    k <> "class" ->
    (tagName e = "OPTION" /\ k = "selected")
    \/ (tagName e = "INPUT" /\ k = "checked") ->
    selection e k BooleanHandler k
| Sel_value :
    k = "value" -> tagName e = "TEXTAREA" \/ tagName e = "INPUT" ->
    selection e k ValueHandler k
| Sel_xlink (n : string) :
    k <> "class" -> selection e k XlinkHandler n
| Sel_default :
    k <> "class" ->
    ~ (k = "value" /\ (tagName e = "TEXTAREA" \/ tagName e = "INPUT")) ->
    selection e k AttributeHandler k.

(** whether no removal (an invocation with value [null]) comes after an
    addition or update (an invocation with another value) *)
Definition is_removal (ev : event) : bool :=
  match ev with
  | Invoke _ _ v => strict_eq v VNull
  | Call _ => false
  end.

Definition is_addition (ev : event) : bool :=
  match ev with
  | Invoke _ _ v => strict_neq v VNull
  | Call _ => false
  end.

Fixpoint removals_first (t : list event) : bool :=
  match t with
  | [] => true
  | ev :: t' =>
      if is_addition ev then forallb (fun ev' => negb (is_removal ev')) t'
      else removals_first t'
  end.

(** the states an updater can be in: fresh, after a call to [update]
    with a map of strings and [null]s, whatever its outcome, and after a
    change made to the element from outside that keeps its kind *)
Inductive reachable : state -> Prop :=
| R_fresh (e : element) : reachable (ElementAttributesUpdater e)
| R_update (s s' : state) (newAttrs : list (string * jsval))
    (r : outcome unit) :
    reachable s ->
    (forall k v, In (k, v) newAttrs -> is_string_or_null v = true) ->
    update newAttrs s = (r, s') ->
    reachable s'
| R_outside (s : state) (e' : element) :
    reachable s ->
    tagName e' = tagName (elem s) ->
    ownerSVGElement e' = ownerSVGElement (elem s) ->
    reachable (mkState e' (handlers s) (trace s)).

(** the numbers of handler invocations and of calls on the element in a
    trace *)
Definition invokeCount (t : list event) : nat :=
  length (filter (fun ev => match ev with Invoke _ _ _ => true | Call _ => false end) t).

Definition callCount (t : list event) : nat :=
  length (filter (fun ev => match ev with Invoke _ _ _ => false | Call _ => true end) t).

(** whether a character occurs in a string *)
Fixpoint occurs (c : ascii) (s : string) : bool :=
  match s with
  | EmptyString => false
  | String a r => Ascii.eqb a c || occurs c r
  end.

(** no character of the string is in the class *)
Fixpoint noSpecial (s : string) : bool :=
  match s with
  | EmptyString => true
  | String a r => negb (special a) && noSpecial r
  end.

(** what every call keeps: [onComplete] was called at most once, and only
    on a manager that is closed and dead since; a closed manager with
    nothing outstanding is dead *)
Definition emInvariant (m : ExpectationManager) : Prop :=
  (onCompleteCalls m = 0
   \/ (onCompleteCalls m = 1 /\ dead m = true /\ closed m = true))
  /\ (closed m = true -> outstanding m = 0%Z -> dead m = true).



(** * Basic facts *)

(** ** Values *)

Lemma strict_eq_spec (a b : jsval) : reflect (a = b) (strict_eq a b).
Proof.
  destruct a, b; simpl; try (constructor; congruence).
  - destruct (Bool.eqb_spec b0 b); constructor; congruence.
  - destruct (String.eqb_spec s s0); constructor; congruence.
  - destruct (Nat.eqb_spec ref ref0); constructor; congruence.
Qed.

Lemma strict_eq_refl (a : jsval) : strict_eq a a = true.
Proof. destruct (strict_eq_spec a a); congruence. Qed.

Lemma strict_neq_refl (a : jsval) : strict_neq a a = false.
Proof. unfold strict_neq. now rewrite strict_eq_refl. Qed.

Lemma strict_neq_true (a b : jsval) : strict_neq a b = true <-> a <> b.
Proof.
  unfold strict_neq. destruct (strict_eq_spec a b); simpl; split; congruence.
Qed.

Lemma strict_neq_false (a b : jsval) : strict_neq a b = false <-> a = b.
Proof.
  unfold strict_neq. destruct (strict_eq_spec a b); simpl; split; congruence.
Qed.

(** ** Dictionaries keyed by strings *)

Section DictFacts.
Variable V : Type.
Implicit Types (d : list (string * V)) (k : string).

Lemma lookup_assign_eq d k v :
  lookup String.eqb k (assign String.eqb k v d) = Some v.
Proof.
  induction d as [|[k' v'] d IH]; simpl.
  - now rewrite String.eqb_refl.
  - destruct (String.eqb_spec k' k); simpl.
    + subst. now rewrite String.eqb_refl.
    + destruct (String.eqb_spec k' k); [contradiction|exact IH].
Qed.

Lemma lookup_assign_neq d k k' v :
  k' <> k -> lookup String.eqb k' (assign String.eqb k v d)
             = lookup String.eqb k' d.
Proof.
  intros Hne. induction d as [|[k0 v0] d IH]; simpl.
  - destruct (String.eqb_spec k k'); [congruence|reflexivity].
  - destruct (String.eqb_spec k0 k); simpl.
    + subst. destruct (String.eqb_spec k k'); [congruence|reflexivity].
    + destruct (String.eqb_spec k0 k'); [reflexivity|exact IH].
Qed.

Lemma lookup_delete_eq d k :
  lookup String.eqb k (delete String.eqb k d) = None.
Proof.
  induction d as [|[k' v'] d IH]; simpl; [reflexivity|].
  destruct (String.eqb_spec k' k); simpl; [exact IH|].
  destruct (String.eqb_spec k' k); [contradiction|exact IH].
Qed.

Lemma lookup_delete_neq d k k' :
  k' <> k -> lookup String.eqb k' (delete String.eqb k d)
             = lookup String.eqb k' d.
Proof.
  intros Hne. induction d as [|[k0 v0] d IH]; simpl; [reflexivity|].
  destruct (String.eqb_spec k0 k); simpl.
  - subst. destruct (String.eqb_spec k k'); [congruence|exact IH].
  - destruct (String.eqb_spec k0 k'); [reflexivity|exact IH].
Qed.

Lemma lookup_None_keys d k :
  lookup String.eqb k d = None <-> ~ In k (keys d).
Proof.
  induction d as [|[k' v'] d IH]; simpl; [tauto|].
  destruct (String.eqb_spec k' k); split; intros H.
  - discriminate.
  - exfalso. apply H. now left.
  - intros [->|Hin]; [congruence|]. now apply IH.
  - apply IH. tauto.
Qed.

Lemma lookup_Some_In d k v :
  lookup String.eqb k d = Some v -> In (k, v) d.
Proof.
  induction d as [|[k' v'] d IH]; simpl; [discriminate|].
  destruct (String.eqb_spec k' k); intros H.
  - injection H as ->. subst. now left.
  - right. now apply IH.
Qed.

Lemma In_lookup_NoDup d k v :
  NoDup (keys d) -> In (k, v) d -> lookup String.eqb k d = Some v.
Proof.
  induction d as [|[k' v'] d IH]; simpl; [tauto|].
  intros Hnd [Heq|Hin].
  - injection Heq as -> ->. now rewrite String.eqb_refl.
  - inversion Hnd as [|? ? Hnotin Hnd']; subst.
    destruct (String.eqb_spec k' k).
    + subst. exfalso. apply Hnotin.
      change k with (fst (k, v)). now apply in_map.
    + now apply IH.
Qed.

Lemma hasOwnProperty_true d k :
  hasOwnProperty String.eqb d k = true <-> In k (keys d).
Proof.
  unfold hasOwnProperty.
  destruct (lookup String.eqb k d) eqn:E.
  - split; [intros _|reflexivity].
    apply lookup_Some_In in E. change k with (fst (k, v)). now apply in_map.
  - apply lookup_None_keys in E. split; [discriminate|contradiction].
Qed.

Lemma hasOwnProperty_false d k :
  hasOwnProperty String.eqb d k = false <-> ~ In k (keys d).
Proof.
  rewrite <- hasOwnProperty_true.
  destruct (hasOwnProperty String.eqb d k); split; congruence.
Qed.

Lemma keys_assign_In d k v :
  forall k', In k' (keys (assign String.eqb k v d)) <-> k' = k \/ In k' (keys d).
Proof.
  intros k'. induction d as [|[k0 v0] d IH]; simpl.
  - intuition.
  - destruct (String.eqb_spec k0 k); simpl.
    + subst. intuition.
    + rewrite IH. intuition.
Qed.

Lemma keys_delete_In d k :
  forall k', In k' (keys (delete String.eqb k d)) <-> k' <> k /\ In k' (keys d).
Proof.
  intros k'. induction d as [|[k0 v0] d IH]; simpl.
  - intuition.
  - destruct (String.eqb_spec k0 k); simpl.
    + subst. rewrite IH. intuition congruence.
    + rewrite IH. intuition congruence.
Qed.

Lemma NoDup_keys_assign d k v :
  NoDup (keys d) -> NoDup (keys (assign String.eqb k v d)).
Proof.
  induction d as [|[k0 v0] d IH]; simpl; intros Hnd.
  - constructor; [tauto|constructor].
  - inversion Hnd as [|? ? Hnotin Hnd']; subst.
    destruct (String.eqb_spec k0 k); simpl.
    + now constructor.
    + constructor; [|now apply IH].
      rewrite keys_assign_In. intros [->|Hin]; tauto.
Qed.

Lemma NoDup_keys_delete d k :
  NoDup (keys d) -> NoDup (keys (delete String.eqb k d)).
Proof.
  induction d as [|[k0 v0] d IH]; simpl; intros Hnd; [constructor|].
  inversion Hnd as [|? ? Hnotin Hnd']; subst.
  destruct (String.eqb_spec k0 k); simpl; [now apply IH|].
  constructor; [|now apply IH].
  rewrite keys_delete_In. tauto.
Qed.

Lemma delete_absent d k :
  ~ In k (keys d) -> delete String.eqb k d = d.
Proof.
  induction d as [|[k0 v0] d IH]; simpl; intros Hn; [reflexivity|].
  destruct (String.eqb_spec k0 k); [tauto|].
  f_equal. apply IH. tauto.
Qed.

Lemma assign_same d k v :
  lookup String.eqb k d = Some v -> assign String.eqb k v d = d.
Proof.
  induction d as [|[k0 v0] d IH]; simpl; [discriminate|].
  destruct (String.eqb_spec k0 k); intros H.
  - now injection H as ->.
  - f_equal. now apply IH.
Qed.
End DictFacts.

(** ** Tokens: [split], [join] and the array helpers *)

Lemma _arrayContains_In (array : list string) (item : string) :
  _arrayContains array item = true <-> In item array.
Proof.
  unfold _arrayContains. rewrite existsb_exists. split.
  - intros (x & Hin & Heq). apply String.eqb_eq in Heq. now subst.
  - intros Hin. exists item. split; [assumption|apply String.eqb_refl].
Qed.

Lemma _arrayContains_false (array : list string) (item : string) :
  _arrayContains array item = false <-> ~ In item array.
Proof.
  rewrite <- _arrayContains_In.
  destruct (_arrayContains array item); split; congruence.
Qed.

Lemma _arrayWithout_In (array : list string) (item x : string) :
  In x (_arrayWithout array item) <-> In x array /\ x <> item.
Proof.
  unfold _arrayWithout. rewrite filter_In.
  destruct (String.eqb_spec x item); simpl; intuition congruence.
Qed.

Lemma filter_filter {A} (p q : A -> bool) (l : list A) :
  filter p (filter q l) = filter (fun x => q x && p x) l.
Proof.
  induction l as [|a l IH]; simpl; [reflexivity|].
  destruct (q a); simpl; [destruct (p a)|]; now rewrite IH.
Qed.

Lemma split_not_nil (s : string) : split s <> [].
Proof.
  induction s as [|c s IH]; simpl; [discriminate|].
  destruct (Ascii.eqb c space); [discriminate|].
  destruct (split s); [contradiction|discriminate].
Qed.

Lemma split_noSpace (w : string) : noSpace w = true -> split w = [w].
Proof.
  induction w as [|c w IH]; simpl; [reflexivity|].
  intros H. apply andb_prop in H as [Hc Hw].
  apply negb_true_iff in Hc. rewrite Hc, (IH Hw). reflexivity.
Qed.

Lemma split_app_space (w r : string) :
  noSpace w = true -> split (w ++ " " ++ r) = w :: split r.
Proof.
  induction w as [|c w IH]; simpl; [reflexivity|].
  intros H. apply andb_prop in H as [Hc Hw].
  apply negb_true_iff in Hc. simpl in IH. rewrite Hc, (IH Hw). reflexivity.
Qed.

Lemma split_Forall_noSpace (s : string) :
  Forall (fun w => noSpace w = true) (split s).
Proof.
  induction s as [|c s IH]; simpl.
  - now repeat constructor.
  - destruct (Ascii.eqb c space) eqn:Ec.
    + constructor; [reflexivity|assumption].
    + destruct (split s) as [|w ws].
      * repeat constructor. simpl. now rewrite Ec.
      * inversion IH; subst. constructor; [|assumption].
        simpl. rewrite Ec. assumption.
Qed.

Lemma tokens_Forall_isToken (s : string) :
  Forall (fun w => isToken w = true) (tokens s).
Proof.
  unfold tokens, _arrayCompact. apply Forall_forall. intros w Hin.
  apply filter_In in Hin as [Hin Hne].
  unfold isToken. rewrite Hne. simpl.
  pose proof (split_Forall_noSpace s) as HF.
  rewrite Forall_forall in HF. now apply HF.
Qed.

(** Reading back what [join] wrote gives the same tokens. *)
Lemma tokens_join (l : list string) :
  Forall (fun w => isToken w = true) l -> tokens (join l) = l.
Proof.
  induction l as [|x xs IH]; intros HF; [reflexivity|].
  inversion HF as [|? ? Hx Hxs]; subst.
  unfold isToken in Hx. apply andb_prop in Hx as [Hne Hns].
  destruct xs as [|y ys].
  - simpl. unfold tokens. rewrite (split_noSpace _ Hns). simpl.
    now rewrite Hne.
  - change (join (x :: y :: ys)) with (x ++ " " ++ join (y :: ys))%string.
    unfold tokens. rewrite (split_app_space _ _ Hns).
    unfold _arrayCompact. cbn [filter]. rewrite Hne. f_equal. apply (IH Hxs).
Qed.

(** the first loop of [BaseClassHandler.update] keeps exactly the live
    tokens that are not old tokens dropped from the new value *)
Lemma removeOld_filter (oldClasses newClasses classes : list string) :
  removeOld oldClasses newClasses classes
  = filter (fun c => negb (_arrayContains oldClasses c
                           && negb (_arrayContains newClasses c))) classes.
Proof.
  revert classes.
  induction oldClasses as [|c rest IH]; intros classes; simpl.
  - induction classes as [|x xs IHx]; simpl; [reflexivity|now f_equal].
  - rewrite IH. destruct (_arrayContains newClasses c) eqn:Ec; simpl.
    + apply filter_ext. intros x.
      destruct (String.eqb_spec c x); simpl; [|reflexivity].
      subst. rewrite Ec. simpl. now rewrite andb_false_r.
    + unfold _arrayWithout. rewrite filter_filter. apply filter_ext.
      intros x. rewrite (String.eqb_sym x c).
      destruct (String.eqb_spec c x); simpl; [|reflexivity].
      subst. now rewrite Ec.
Qed.

Lemma removeOld_In (oldClasses newClasses classes : list string) (x : string) :
  In x (removeOld oldClasses newClasses classes)
  <-> In x classes /\ (In x oldClasses -> In x newClasses).
Proof.
  rewrite removeOld_filter, filter_In, negb_true_iff, andb_false_iff.
  rewrite _arrayContains_false, negb_false_iff, _arrayContains_In.
  destruct (in_dec string_dec x oldClasses); intuition.
Qed.

(** the second loop appends, once each, the new tokens that are neither
    old nor live *)
Lemma addNew_app (oldClasses todo classes : list string) :
  exists added,
    addNew oldClasses todo classes = classes ++ added
    /\ NoDup added
    /\ forall c, In c added
                 <-> In c todo /\ ~ In c oldClasses /\ ~ In c classes.
Proof.
  revert classes.
  induction todo as [|c rest IH]; intros classes; simpl.
  - exists []. rewrite app_nil_r. repeat split; try constructor; simpl; tauto.
  - destruct (_arrayContains oldClasses c) eqn:Eo; simpl.
    + destruct (IH classes) as (added & Heq & Hnd & Hin).
      exists added. split; [assumption|]. split; [assumption|].
      intros x. rewrite Hin. apply _arrayContains_In in Eo.
      split; [tauto|]. intros ([->|Hr] & Hno & Hnc); tauto.
    + destruct (_arrayContains classes c) eqn:Ec; simpl.
      * destruct (IH classes) as (added & Heq & Hnd & Hin).
        exists added. split; [assumption|]. split; [assumption|].
        intros x. rewrite Hin. apply _arrayContains_In in Ec.
        split; [tauto|]. intros ([->|Hr] & Hno & Hnc); tauto.
      * destruct (IH (classes ++ [c])) as (added & Heq & Hnd & Hin).
        apply _arrayContains_false in Eo, Ec.
        exists (c :: added). rewrite Heq, <- app_assoc. simpl.
        split; [reflexivity|]. split.
        -- constructor; [|assumption]. intros Hc. apply Hin in Hc.
           destruct Hc as (_ & _ & Hc). apply Hc, in_or_app. right. now left.
        -- intros x. rewrite Hin. rewrite in_app_iff. simpl.
           destruct (string_dec c x) as [->|Hne]; [tauto|]. intuition.
Qed.

Lemma Forall_filter {A} (P : A -> Prop) (p : A -> bool) (l : list A) :
  Forall P l -> Forall P (filter p l).
Proof.
  rewrite !Forall_forall. intros H x Hin. apply filter_In in Hin. now apply H.
Qed.

Lemma diffClasses_tokens (oldClasses newClasses classes : list string) :
  Forall (fun w => isToken w = true) newClasses ->
  Forall (fun w => isToken w = true) classes ->
  Forall (fun w => isToken w = true) (diffClasses oldClasses newClasses classes).
Proof.
  intros Hn Hc. unfold diffClasses.
  destruct (addNew_app oldClasses newClasses
              (removeOld oldClasses newClasses classes))
    as (added & -> & _ & Hin).
  apply Forall_app. split.
  - rewrite removeOld_filter. now apply Forall_filter.
  - rewrite Forall_forall in *. intros x Hx. apply Hn. now apply Hin.
Qed.

(** ** What a handler does to the state *)

Lemma classesOf_tokensOf (v : jsval) (s : state) :
  is_string_or_null v = true -> classesOf v s = (Return (tokensOf v), s).
Proof.
  destruct v as [| |b|str|r]; try discriminate; intros _; [reflexivity|].
  unfold classesOf. simpl.
  destruct (String.eqb_spec str ""); simpl; [now subst|reflexivity].
Qed.

Lemma ClassHandler_update_run (this : handler) (oldValue v : jsval) (s : state) :
  proto this = ClassHandler ->
  ownerSVGElement (elem s) = false ->
  is_string_or_null oldValue = true ->
  is_string_or_null v = true ->
  handler_update this oldValue v s
  = (Return tt, after (setClassName (newClassName oldValue v (elem s))) s).
Proof.
  intros Hp Hsvg Ho Hv. unfold handler_update. rewrite Hp. simpl.
  unfold bind. rewrite (classesOf_tokensOf _ _ Ho), (classesOf_tokensOf _ _ Hv).
  unfold get_elem, className. rewrite Hsvg. reflexivity.
Qed.

Lemma SVGClassHandler_update_run (this : handler) (oldValue v : jsval)
  (s : state) :
  proto this = SVGClassHandler ->
  ownerSVGElement (elem s) = true ->
  is_string_or_null oldValue = true ->
  is_string_or_null v = true ->
  handler_update this oldValue v s
  = (Return tt,
     after (setAttribute "class" (VStr (newClassName oldValue v (elem s)))) s).
Proof.
  intros Hp Hsvg Ho Hv. unfold handler_update. rewrite Hp. simpl.
  unfold bind. rewrite (classesOf_tokensOf _ _ Ho), (classesOf_tokensOf _ _ Hv).
  unfold get_elem, className_baseVal. rewrite Hsvg. reflexivity.
Qed.

Lemma newClassName_tokens (oldValue v : jsval) (e : element) :
  tokens (newClassName oldValue v e)
  = diffClasses (tokensOf oldValue) (tokensOf v) (classList e).
Proof.
  unfold newClassName. apply tokens_join. apply diffClasses_tokens.
  - destruct v; simpl; try constructor. apply tokens_Forall_isToken.
  - apply tokens_Forall_isToken.
Qed.

Lemma classList_setClassName (cn : string) (e : element) :
  ownerSVGElement e = false ->
  classList (apply_call (setClassName cn) e) = tokens cn.
Proof.
  intros Hsvg. unfold classList, classAttr. simpl. rewrite Hsvg. simpl.
  now rewrite lookup_assign_eq.
Qed.

Lemma classList_setAttribute_class (cn : string) (e : element) :
  classList (apply_call (setAttribute "class" (VStr cn)) e) = tokens cn.
Proof.
  unfold classList, classAttr. simpl. now rewrite lookup_assign_eq.
Qed.

Lemma effect_dom (c : call) (s s' : state) (r : outcome unit) :
  dom c s = (r, s') -> effect s s' r.
Proof. intros H. injection H as <- <-. right. now exists c. Qed.

Lemma effect_ret (s s' : state) (r : outcome unit) :
  ret tt s = (r, s') -> effect s s' r.
Proof. intros H. injection H as <- <-. now left. Qed.

Lemma effect_throw (e : exn) (s s' : state) (r : outcome unit) :
  throw e s = (r, s') -> effect s s' r.
Proof. intros H. injection H as <- <-. now left. Qed.

Ltac effect_done :=
  first [ apply effect_dom | apply effect_ret | apply effect_throw ].

Lemma classesOf_state (v : jsval) (s s' : state) (r : outcome (list string)) :
  classesOf v s = (r, s') -> s' = s.
Proof.
  unfold classesOf. destruct (truthy v); [destruct v|]; simpl;
    intros H; now injection H as <- <-.
Qed.

Lemma effect_BaseClassHandler
  (g : option (element -> jsval)) (w : option (string -> M unit))
  (oldValue v : jsval) (s s' : state) (r : outcome unit) :
  (forall cn s s' r, match w with
                     | Some setValue => setValue cn s = (r, s') -> effect s s' r
                     | None => True
                     end) ->
  BaseClassHandler_update g w oldValue v s = (r, s') -> effect s s' r.
Proof.
  intros Hw. unfold BaseClassHandler_update.
  destruct g as [g|]; [destruct w as [w|]|]; try apply effect_throw.
  unfold bind, get_elem.
  destruct (classesOf oldValue s) as [[oc|e1] s1] eqn:E1;
    pose proof (classesOf_state _ _ E1) as ->;
    [|intros H; injection H as <- <-; now left].
  destruct (classesOf v s) as [[nc|e2] s2] eqn:E2;
    pose proof (classesOf_state _ _ E2) as ->;
    [|intros H; injection H as <- <-; now left].
  destruct (g (elem s)); simpl; try apply effect_throw.
  apply Hw.
Qed.

(** a handler leaves the table alone and makes at most one call *)
Lemma handler_update_effect (this : handler) (oldValue v : jsval)
  (s s' : state) (r : outcome unit) :
  handler_update this oldValue v s = (r, s') -> effect s s' r.
Proof.
  unfold handler_update.
  destruct (proto this); cbv beta iota.
  - unfold AttributeHandler_update.
    destruct (strict_eq v VNull); [destruct (strict_neq oldValue VNull)|];
      effect_done.
  - apply effect_BaseClassHandler. intros; exact I.
  - apply effect_BaseClassHandler. intros; simpl; apply effect_dom.
  - apply effect_BaseClassHandler. intros; simpl; apply effect_dom.
  - unfold BooleanHandler_update, BooleanHandler_focused, bind, get_elem.
    destruct (String.eqb (tagName (elem s)) "INPUT").
    + unfold ret at 1. destruct (isActiveElement (elem s)); cbv beta iota;
        [|destruct (loose_eq_null v); [destruct (loose_eq_null oldValue)|]];
        cbv beta iota delta [negb]; effect_done.
    + destruct (String.eqb (tagName (elem s)) "OPTION").
      * destruct (find _ _) as [[tg [|]]|]; unfold ret at 1;
          cbv beta iota delta [negb snd];
          try (destruct (loose_eq_null v); [destruct (loose_eq_null oldValue)|]);
          cbv beta iota delta [negb]; effect_done.
      * unfold throw at 1. apply effect_throw.
  - unfold ValueHandler_update, bind, get_elem.
    destruct (isActiveElement (elem s)); cbv beta iota delta [negb];
      effect_done.
  - unfold XlinkHandler_update.
    destruct (strict_eq v VNull); [destruct (strict_neq oldValue VNull)|];
      effect_done.
Qed.

(** ** The two loop bodies, case by case *)

Lemma assign_assign {V} (k : string) (v1 v2 : V) (d : list (string * V)) :
  assign String.eqb k v2 (assign String.eqb k v1 d) = assign String.eqb k v2 d.
Proof.
  induction d as [|[k0 v0] d IH]; simpl.
  - now rewrite String.eqb_refl.
  - destruct (String.eqb k0 k) eqn:E; simpl; rewrite E; [reflexivity|].
    now rewrite IH.
Qed.

Lemma value_makeAttributeHandler (e : element) (k : string) (v : jsval) :
  value (makeAttributeHandler e k v) = v.
Proof.
  unfold makeAttributeHandler.
  repeat match goal with |- context [if ?b then _ else _] => destruct b end;
    reflexivity.
Qed.

Lemma set_value_makeAttributeHandler (e : element) (k : string) (v w : jsval) :
  set_value (makeAttributeHandler e k v) w = makeAttributeHandler e k w.
Proof.
  unfold makeAttributeHandler.
  repeat match goal with |- context [if ?b then _ else _] => destruct b end;
    reflexivity.
Qed.

Lemma state_eta (s : state) : mkState (elem s) (handlers s) (trace s) = s.
Proof. now destruct s. Qed.

Lemma updateStep_eq (k : string) (v oldValue : jsval) (s : state) :
  updateStep (k, v) oldValue s
  = match lookup String.eqb k (handlers s) with
    | Some h =>
        if strict_neq (value h) v
        then changed k (set_value h v) (value h) v s
        else (Return (value h), s)
    | None =>
        if strict_neq v VNull
        then changed k (makeAttributeHandler (elem s) k v) VNull v s
        else if strict_neq oldValue VNull then (Throw TypeError, s)
             else (Return oldValue, s)
    end.
Proof.
  unfold updateStep, changed, bind, get_handlers, get_elem, put_handlers, ret,
    with_handlers. cbn [fst snd elem handlers trace].
  destruct (lookup String.eqb k (handlers s)) as [h|] eqn:El;
    cbn [fst snd].
  - destruct (strict_neq (value h) v); [|reflexivity].
    destruct (invoke _ _ _ _ _) as [[[]|e] s2]; [|reflexivity].
    destruct (strict_eq v VNull); reflexivity.
  - destruct (strict_neq v VNull) eqn:En; cbn [fst snd elem handlers trace].
    + assert (strict_neq VNull v = true) as ->.
      { apply strict_neq_true. apply strict_neq_true in En. congruence. }
      cbn [fst snd elem handlers trace].
      rewrite set_value_makeAttributeHandler, assign_assign.
      destruct (invoke _ _ _ _ _) as [[[]|e] s2]; [|reflexivity].
      unfold strict_neq in En. apply negb_true_iff in En. now rewrite En.
    + apply strict_neq_false in En. subst v.
      destruct (strict_neq oldValue VNull); reflexivity.
Qed.

Lemma removeStep_eq (newAttrs : list (string * jsval)) (k : string)
  (oldValue : jsval) (s : state) :
  removeStep newAttrs k oldValue s
  = match lookup String.eqb k (handlers s) with
    | Some h =>
        if hasOwnProperty String.eqb newAttrs k then (Return oldValue, s)
        else changed k (set_value h VNull) (value h) VNull s
    | None => (Return oldValue, s)
    end.
Proof.
  unfold removeStep, changed, bind, get_handlers, put_handlers, ret,
    with_handlers. cbn [fst snd elem handlers trace].
  destruct (lookup String.eqb k (handlers s)) as [h|]; [|reflexivity].
  destruct (hasOwnProperty String.eqb newAttrs k); cbn [negb]; [reflexivity|].
  cbn [elem handlers trace].
  destruct (invoke _ _ _ _ _) as [[[]|e] s2]; reflexivity.
Qed.

Lemma update_eq (newAttrs : list (string * jsval)) (s : state) :
  update newAttrs s
  = match for_in (keys (handlers s)) (removeStep newAttrs) VUndefined s with
    | (Return oldValue, s1) =>
        match for_in newAttrs updateStep oldValue s1 with
        | (Return _, s2) => (Return tt, s2)
        | (Throw e, s2) => (Throw e, s2)
        end
    | (Throw e, s1) => (Throw e, s1)
    end.
Proof.
  unfold update, bind, get_handlers, ret.
  destruct (for_in _ _ _ s) as [[ov|e] s1]; [|reflexivity].
  destruct (for_in _ _ _ s1) as [[ov'|e] s2]; reflexivity.
Qed.

Lemma for_in_cons {A} (x : A) (l : list A) (body : A -> jsval -> M jsval)
  (oldValue : jsval) (s : state) :
  for_in (x :: l) body oldValue s
  = match body x oldValue s with
    | (Return ov, s1) => for_in l body ov s1
    | (Throw e, s1) => (Throw e, s1)
    end.
Proof. reflexivity. Qed.

Lemma for_in_nil {A} (body : A -> jsval -> M jsval) (oldValue : jsval)
  (s : state) :
  for_in [] body oldValue s = (Return oldValue, s).
Proof. reflexivity. Qed.

Lemma invoke_eq (k : string) (h : handler) (oldValue v : jsval) (s : state) :
  invoke k h oldValue v s
  = handler_update h oldValue v
      (mkState (elem s) (handlers s) (trace s ++ [Invoke k oldValue v])).
Proof. reflexivity. Qed.

Lemma proto_makeAttributeHandler_class (e : element) (v : jsval) :
  makeAttributeHandler e "class" v
  = new (if ownerSVGElement e then SVGClassHandler else ClassHandler) "class" v.
Proof.
  unfold makeAttributeHandler, isSVGElement. simpl.
  now destruct (ownerSVGElement e).
Qed.

(** the class handler chosen for [e], run on strings or [null] *)
Lemma class_handler_run (e : element) (hv oldValue v : jsval) (s : state) :
  elem s = e ->
  is_string_or_null oldValue = true ->
  is_string_or_null v = true ->
  exists c,
    handler_update (makeAttributeHandler e "class" hv) oldValue v s
    = (Return tt, after c s)
    /\ classList (apply_call c e)
       = diffClasses (tokensOf oldValue) (tokensOf v) (classList e)
    /\ (c = setClassName (newClassName oldValue v e)
        \/ c = setAttribute "class" (VStr (newClassName oldValue v e))).
Proof.
  intros He Ho Hv. rewrite proto_makeAttributeHandler_class.
  destruct (ownerSVGElement e) eqn:Hsvg.
  - exists (setAttribute "class" (VStr (newClassName oldValue v e))).
    split; [|split; [|now right]].
    + rewrite <- He. apply SVGClassHandler_update_run; trivial. now rewrite He.
    + rewrite classList_setAttribute_class. apply newClassName_tokens.
  - exists (setClassName (newClassName oldValue v e)).
    split; [|split; [|now left]].
    + rewrite <- He. apply ClassHandler_update_run; trivial. now rewrite He.
    + rewrite classList_setClassName by assumption. apply newClassName_tokens.
Qed.

Lemma hasOwnProperty_lookup {V} (d : list (string * V)) (k : string) :
  hasOwnProperty String.eqb d k
  = match lookup String.eqb k d with Some _ => true | None => false end.
Proof. reflexivity. Qed.

(** evaluation of the updater on tables and maps given explicitly *)
Ltac run_update :=
  repeat (rewrite ?update_eq, ?for_in_cons, ?for_in_nil, ?removeStep_eq,
            ?updateStep_eq, ?strict_neq_refl, ?strict_eq_refl,
            ?String.eqb_refl, ?hasOwnProperty_lookup;
          cbn [handlers elem trace keys map fst snd lookup assign delete
               hasOwnProperty with_handlers negb value proto name set_value
               String.eqb Ascii.eqb Bool.eqb]).

(** the same, with the comparisons of values computed as well *)
Ltac run_update_values :=
  repeat (run_update; cbn [strict_eq strict_neq negb]; run_update).

(** updating the one tracked class attribute to another string *)
Lemma update_class_tracked (e : element) (tr : list event) (o v : string) :
  o <> v ->
  exists c,
    update [("class", VStr v)]
      (mkState e [("class", makeAttributeHandler e "class" (VStr o))] tr)
    = (Return tt,
       mkState (apply_call c e)
         [("class", makeAttributeHandler e "class" (VStr v))]
         (tr ++ [Invoke "class" (VStr o) (VStr v); Call c]))
    /\ classList (apply_call c e)
       = diffClasses (tokens o) (tokens v) (classList e).
Proof.
  intros Hne.
  destruct (@class_handler_run e (VStr v) (VStr o) (VStr v)
              (mkState e [("class", makeAttributeHandler e "class" (VStr v))]
                 (tr ++ [Invoke "class" (VStr o) (VStr v)]))
              eq_refl eq_refl eq_refl) as (c & Hrun & Hcl & _).
  exists c. split; [|exact Hcl].
  run_update.
  rewrite value_makeAttributeHandler.
  assert (strict_neq (VStr o) (VStr v) = true) as ->.
  { apply strict_neq_true. congruence. }
  unfold changed. rewrite invoke_eq, set_value_makeAttributeHandler.
  run_update. rewrite Hrun. run_update.
  unfold after. run_update.
  now rewrite <- app_assoc.
Qed.

(** ** Effects of the loop bodies *)

Lemma sameNode_refl (e : element) : sameNode e e.
Proof. now repeat split. Qed.

Lemma sameNode_trans (e1 e2 e3 : element) :
  sameNode e1 e2 -> sameNode e2 e3 -> sameNode e1 e3.
Proof.
  intros (A1 & A2 & A3 & A4) (B1 & B2 & B3 & B4).
  repeat split; congruence.
Qed.

Lemma apply_call_sameNode (c : call) (e : element) : sameNode e (apply_call c e).
Proof.
  destruct c; simpl; try (now repeat split).
  destruct (ownerSVGElement e); now repeat split.
Qed.

Lemma run_calls_sameNode (calls : list call) (e : element) :
  sameNode e (run_calls calls e).
Proof.
  revert e. induction calls as [|c calls IH]; intros e; simpl.
  - apply sameNode_refl.
  - eapply sameNode_trans; [apply apply_call_sameNode|apply IH].
Qed.

Lemma makeAttributeHandler_sameNode (e e' : element) (k : string) (v : jsval) :
  sameNode e e' -> makeAttributeHandler e' k v = makeAttributeHandler e k v.
Proof.
  intros (Ht & Hs & _). unfold makeAttributeHandler, isSVGElement.
  now rewrite Ht, Hs.
Qed.

Lemma changed_spec (k : string) (h : handler) (o v : jsval) (s s' : state)
  (r : outcome jsval) :
  changed k h o v s = (r, s') ->
  exists calls,
    length calls <= 1
    /\ elem s' = run_calls calls (elem s)
    /\ trace s' = trace s ++ Invoke k o v :: map Call calls
    /\ ((r = Return o
         /\ handlers s'
            = if strict_eq v VNull
              then delete String.eqb k (assign String.eqb k h (handlers s))
              else assign String.eqb k h (handlers s))
        \/ (exists e, r = Throw e
                      /\ handlers s' = assign String.eqb k h (handlers s))).
Proof.
  unfold changed. rewrite invoke_eq.
  destruct (handler_update _ _ _ _) as [r0 s2] eqn:E.
  apply handler_update_effect in E. unfold with_handlers in E.
  destruct E as [->|(c & -> & ->)].
  - destruct r0 as [[]|e]; intros H; injection H as <- <-; exists [];
      (split; [simpl; lia|]); (split; [now destruct (strict_eq v VNull)|]);
      (split; [now destruct (strict_eq v VNull)|]).
    + left. split; [reflexivity|]. now destruct (strict_eq v VNull).
    + right. now exists e.
  - intros H; injection H as <- <-. exists [c].
    split; [simpl; lia|]. split; [now destruct (strict_eq v VNull)|].
    split.
    + destruct (strict_eq v VNull); simpl; now rewrite <- app_assoc.
    + left. split; [reflexivity|]. now destruct (strict_eq v VNull).
Qed.

Lemma updateStep_cases (k : string) (v oldValue : jsval) (s s' : state)
  (r : outcome jsval) :
  updateStep (k, v) oldValue s = (r, s') ->
  updateStep_case k v oldValue s r s'.
Proof.
  rewrite updateStep_eq.
  destruct (lookup String.eqb k (handlers s)) as [h|] eqn:El.
  - destruct (strict_neq (value h) v) eqn:En.
    + apply strict_neq_true in En. intros H. now apply US_tracked with h.
    + apply strict_neq_false in En. intros H. injection H as <- <-.
      apply US_same with h; congruence.
  - destruct (strict_neq v VNull) eqn:En.
    + apply strict_neq_true in En. intros H. now apply US_fresh.
    + apply strict_neq_false in En.
      destruct (strict_neq oldValue VNull) eqn:Eo; intros H;
        injection H as <- <-.
      * apply strict_neq_true in Eo. now apply US_null_throw.
      * apply strict_neq_false in Eo. subst. now apply US_null_skip.
Qed.

Lemma removeStep_cases (newAttrs : list (string * jsval)) (k : string)
  (oldValue : jsval) (s s' : state) (r : outcome jsval) :
  removeStep newAttrs k oldValue s = (r, s') ->
  removeStep_case newAttrs k oldValue s r s'.
Proof.
  rewrite removeStep_eq.
  destruct (lookup String.eqb k (handlers s)) as [h|] eqn:El.
  - destruct (hasOwnProperty String.eqb newAttrs k) eqn:Eh.
    + apply hasOwnProperty_true in Eh. intros H. injection H as <- <-.
      now apply RS_kept with h.
    + apply hasOwnProperty_false in Eh. intros H. now apply RS_removed with h.
  - intros H. injection H as <- <-. now apply RS_deleted.
Qed.

Lemma invocations_of_app (k : string) (t1 t2 : list event) :
  invocations_of k (t1 ++ t2) = invocations_of k t1 ++ invocations_of k t2.
Proof. apply filter_app. Qed.

Lemma invocations_of_calls (k : string) (calls : list call) :
  invocations_of k (map Call calls) = [].
Proof. induction calls; simpl; auto. Qed.

Lemma invocations_of_segment (k k' : string) (o v : jsval) (calls : list call) :
  invocations_of k (Invoke k' o v :: map Call calls)
  = if String.eqb k' k then [Invoke k' o v] else [].
Proof.
  simpl. rewrite (invocations_of_calls k calls).
  now destruct (String.eqb k' k).
Qed.

Lemma extends_refl (s : state) : extends s s [].
Proof. unfold extends. now rewrite app_nil_r. Qed.

Lemma extends_trans (s1 s2 s3 : state) (t1 t2 : list event) :
  extends s1 s2 t1 -> extends s2 s3 t2 -> extends s1 s3 (t1 ++ t2).
Proof. unfold extends. intros H1 H2. now rewrite H2, H1, app_assoc. Qed.

Lemma extends_inj (s s' : state) (t t' : list event) :
  extends s s' t -> extends s s' t' -> t = t'.
Proof. unfold extends. intros H1 H2. rewrite H1 in H2. now apply app_inv_head in H2. Qed.

Lemma changed_frame (k : string) (h : handler) (o v : jsval) (s s' : state)
  (r : outcome jsval) :
  changed k h o v s = (r, s') ->
  sameNode (elem s) (elem s')
  /\ (forall k', k' <> k ->
        lookup String.eqb k' (handlers s') = lookup String.eqb k' (handlers s))
  /\ lookup String.eqb k (handlers s')
     = match r with
       | Return _ => if strict_eq v VNull then None else Some h
       | Throw _ => Some h
       end
  /\ exists calls,
       length calls <= 1
       /\ elem s' = run_calls calls (elem s)
       /\ extends s s' (Invoke k o v :: map Call calls)
       /\ (r = Return o \/ exists e, r = Throw e).
Proof.
  intros H. apply changed_spec in H.
  destruct H as (calls & Hlen & He & Ht & Hr).
  split; [rewrite He; apply run_calls_sameNode|].
  split; [|split].
  - intros k' Hne.
    destruct Hr as [(_ & ->)|(e & _ & ->)];
      [destruct (strict_eq v VNull)|];
      rewrite ?lookup_delete_neq, ?lookup_assign_neq by assumption; reflexivity.
  - destruct Hr as [(-> & ->)|(e & -> & ->)];
      [destruct (strict_eq v VNull)|];
      rewrite ?lookup_delete_eq, ?lookup_assign_eq; reflexivity.
  - exists calls. repeat split; try assumption.
    destruct Hr as [(-> & _)|(e & -> & _)]; [now left|right; now exists e].
Qed.

(** ** The second loop, key by key *)

Lemma set_value_same (h : handler) : set_value h (value h) = h.
Proof. now destruct h. Qed.

Lemma strict_eq_false (a b : jsval) : a <> b -> strict_eq a b = false.
Proof. destruct (strict_eq_spec a b); congruence. Qed.

Lemma loop2_return (newAttrs : list (string * jsval)) :
  NoDup (keys newAttrs) ->
  forall (s s' : state) (ov ov' : jsval),
    tracked_nonnull s ->
    for_in newAttrs updateStep ov s = (Return ov', s') ->
    sameNode (elem s) (elem s')
    /\ exists t,
        extends s s' t
        /\ forall k,
            lookup String.eqb k (handlers s') = expected_handler s newAttrs k
            /\ invocations_of k t = expected_invocations s newAttrs k.
Proof.
  induction newAttrs as [|[k0 v0] rest IH]; intros Hnd s s' ov ov' Hnn Hrun.
  - rewrite for_in_nil in Hrun. injection Hrun as <- <-.
    split; [apply sameNode_refl|]. exists []. split; [apply extends_refl|].
    intros k. now split.
  - rewrite for_in_cons in Hrun.
    destruct (updateStep (k0, v0) ov s) as [[ov1|e] s1] eqn:Estep;
      [|discriminate].
    inversion Hnd as [|? ? Hnotin Hnd']; subst.
    apply (proj2 (lookup_None_keys _ _)) in Hnotin.
    assert (sameNode (elem s) (elem s1)
            /\ tracked_nonnull s1
            /\ exists t1,
                extends s s1 t1
                /\ (forall k, k <> k0 ->
                      lookup String.eqb k (handlers s1)
                      = lookup String.eqb k (handlers s)
                      /\ invocations_of k t1 = [])
                /\ lookup String.eqb k0 (handlers s1)
                   = expected_handler s [(k0, v0)] k0
                /\ invocations_of k0 t1 = expected_invocations s [(k0, v0)] k0)
      as (Hsame & Hnn1 & t1 & Hext1 & Hother & Hk0 & Hinv0).
    { unfold expected_handler, expected_invocations. simpl.
      rewrite String.eqb_refl.
      apply updateStep_cases in Estep.
      destruct Estep as [h El Hv Hr Hs|El Hv Ho Hr Hs|El Hv Ho Hr Hs
                        |h El Hv Hch|El Hv Hch].
      - subst s1. split; [apply sameNode_refl|]. split; [assumption|].
        exists []. split; [apply extends_refl|]. split; [now intros|].
        rewrite El, Hv, strict_eq_refl.
        rewrite (strict_eq_false (a := v0) (b := VNull))
          by (rewrite <- Hv; now apply Hnn with k0).
        rewrite <- Hv, set_value_same. now split.
      - subst s1 v0. split; [apply sameNode_refl|]. split; [assumption|].
        exists []. split; [apply extends_refl|]. split; [now intros|].
        rewrite El. now split.
      - discriminate.
      - apply changed_frame in Hch.
        destruct Hch as (Hsame & Hfr & Hlk & calls & _ & _ & Hext & Hr).
        destruct Hr as [Hr|(e & Hr)]; [|discriminate]. injection Hr as ->.
        split; [assumption|]. split.
        { intros k h'. destruct (string_dec k k0) as [->|Hne].
          - rewrite Hlk. destruct (strict_eq_spec v0 VNull); [discriminate|].
            intros Hh. injection Hh as <-. assumption.
          - rewrite (Hfr _ Hne). apply Hnn. }
        exists (Invoke k0 (value h) v0 :: map Call calls).
        split; [assumption|]. split.
        { intros k Hne. split; [now apply Hfr|].
          rewrite invocations_of_segment.
          destruct (String.eqb_spec k0 k); congruence. }
        rewrite Hlk, El, invocations_of_segment, String.eqb_refl.
        rewrite (strict_eq_false Hv). now split.
      - apply changed_frame in Hch.
        destruct Hch as (Hsame & Hfr & Hlk & calls & _ & _ & Hext & Hr).
        destruct Hr as [Hr|(e & Hr)]; [|discriminate]. injection Hr as ->.
        rewrite (strict_eq_false Hv) in Hlk.
        split; [assumption|]. split.
        { intros k h'. destruct (string_dec k k0) as [->|Hne].
          - rewrite Hlk. intros Hh. injection Hh as <-.
            now rewrite value_makeAttributeHandler.
          - rewrite (Hfr _ Hne). apply Hnn. }
        exists (Invoke k0 VNull v0 :: map Call calls).
        split; [assumption|]. split.
        { intros k Hne. split; [now apply Hfr|].
          rewrite invocations_of_segment.
          destruct (String.eqb_spec k0 k); congruence. }
        rewrite Hlk, El, invocations_of_segment, String.eqb_refl.
        rewrite (strict_eq_false Hv). now split. }
    destruct (IH Hnd' s1 s' ov1 ov' Hnn1 Hrun) as (Hsame' & t2 & Hext2 & Hall).
    split; [eapply sameNode_trans; eassumption|].
    exists (t1 ++ t2). split; [eapply extends_trans; eassumption|].
    intros k. destruct (Hall k) as (Hh & Hi).
    rewrite invocations_of_app, Hh, Hi.
    unfold expected_handler, expected_invocations in *. simpl in *.
    rewrite String.eqb_refl in Hk0, Hinv0.
    destruct (String.eqb_spec k0 k) as [->|Hne].
    + rewrite Hnotin, Hk0, Hinv0, app_nil_r. now split.
    + destruct (Hother k (not_eq_sym Hne)) as (-> & ->).
      destruct (lookup String.eqb k rest) as [v|]; [|now split].
      rewrite (makeAttributeHandler_sameNode _ _ Hsame). now split.
Qed.

(** ** The first loop, key by key *)

Lemma loop1_return (newAttrs : list (string * jsval)) (ks : list string) :
  forall (s s' : state) (ov ov' : jsval),
    for_in ks (removeStep newAttrs) ov s = (Return ov', s') ->
    sameNode (elem s) (elem s')
    /\ exists t,
        extends s s' t
        /\ forall k,
            lookup String.eqb k (handlers s')
            = (if removed_key newAttrs ks k then None
               else lookup String.eqb k (handlers s))
            /\ invocations_of k t
               = match lookup String.eqb k (handlers s) with
                 | Some h => if removed_key newAttrs ks k
                             then [Invoke k (value h) VNull] else []
                 | None => []
                 end.
Proof.
  induction ks as [|k0 rest IH]; intros s s' ov ov' Hrun.
  - rewrite for_in_nil in Hrun. injection Hrun as <- <-.
    split; [apply sameNode_refl|]. exists []. split; [apply extends_refl|].
    intros k. split; [reflexivity|].
    now destruct (lookup String.eqb k (handlers s)).
  - rewrite for_in_cons in Hrun.
    destruct (removeStep newAttrs k0 ov s) as [[ov1|e] s1] eqn:Estep;
      [|discriminate].
    destruct (IH s1 s' ov1 ov' Hrun) as (Hsame' & t2 & Hext2 & Hall).
    assert (forall k, k <> k0 ->
              removed_key newAttrs (k0 :: rest) k = removed_key newAttrs rest k)
      as Hrk.
    { intros k Hne. unfold removed_key. simpl.
      destruct (String.eqb_spec k0 k); [congruence|reflexivity]. }
    apply removeStep_cases in Estep.
    destruct Estep as [El Hr Hs|h El Hin Hr Hs|h El Hin Hch].
    + subst s1. split; [assumption|]. exists t2. split; [assumption|].
      intros k. destruct (Hall k) as (Hh & Hi). rewrite Hh, Hi.
      destruct (string_dec k k0) as [->|Hne].
      * rewrite El. split; [now destruct (removed_key _ _ _),
                                         (removed_key _ _ _)|reflexivity].
      * now rewrite (Hrk _ Hne).
    + subst s1. split; [assumption|]. exists t2. split; [assumption|].
      intros k. destruct (Hall k) as (Hh & Hi). rewrite Hh, Hi.
      destruct (string_dec k k0) as [->|Hne].
      * apply hasOwnProperty_true in Hin. unfold removed_key. rewrite Hin.
        rewrite !andb_false_r. now split.
      * now rewrite (Hrk _ Hne).
    + apply changed_frame in Hch.
      destruct Hch as (Hsame & Hfr & Hlk & calls & _ & _ & Hext & Hr).
      simpl in Hlk.
      split; [eapply sameNode_trans; eassumption|].
      exists ((Invoke k0 (value h) VNull :: map Call calls) ++ t2).
      split; [eapply extends_trans; eassumption|].
      intros k. destruct (Hall k) as (Hh & Hi).
      rewrite invocations_of_app, invocations_of_segment, Hh, Hi.
      destruct (string_dec k k0) as [->|Hne].
      * rewrite Hlk, El, String.eqb_refl.
        apply hasOwnProperty_false in Hin.
        assert (removed_key newAttrs (k0 :: rest) k0 = true) as ->.
        { unfold removed_key. simpl. now rewrite String.eqb_refl, Hin. }
        split; [now destruct (removed_key _ _ _)|reflexivity].
      * rewrite (Hfr _ Hne), (Hrk _ Hne).
        destruct (String.eqb_spec k0 k); [congruence|]. now split.
Qed.

Lemma loop1_tracked_nonnull (newAttrs : list (string * jsval))
  (ks : list string) (s s' : state) (ov ov' : jsval) :
  tracked_nonnull s ->
  for_in ks (removeStep newAttrs) ov s = (Return ov', s') ->
  tracked_nonnull s'.
Proof.
  intros Hnn Hrun. apply loop1_return in Hrun.
  destruct Hrun as (_ & t & _ & Hall).
  intros k h. rewrite (proj1 (Hall k)).
  destruct (removed_key newAttrs ks k); [discriminate|apply Hnn].
Qed.

(** ** The trace of a call to [update], segment by segment *)

Lemma loop1_segments (newAttrs : list (string * jsval)) (ks : list string) :
  forall (s s' : state) (ov : jsval) (r : outcome jsval),
    for_in ks (removeStep newAttrs) ov s = (r, s') ->
    exists segs,
      extends s s' (concat segs)
      /\ Forall (removal_segment s newAttrs) segs.
Proof.
  induction ks as [|k0 rest IH]; intros s s' ov r Hrun.
  - rewrite for_in_nil in Hrun. injection Hrun as <- <-.
    exists []. split; [apply extends_refl|constructor].
  - rewrite for_in_cons in Hrun.
    destruct (removeStep newAttrs k0 ov s) as [[ov1|e] s1] eqn:Estep.
    + destruct (IH s1 s' ov1 r Hrun) as (segs & Hext & Hsegs).
      apply removeStep_cases in Estep.
      destruct Estep as [El Hr Hs|h El Hin Hr Hs|h El Hin Hch].
      * subst s1. now exists segs.
      * subst s1. now exists segs.
      * apply changed_frame in Hch.
        destruct Hch as (_ & Hfr & Hlk & calls & Hlen & _ & Hext1 & _).
        simpl in Hlk.
        exists ((Invoke k0 (value h) VNull :: map Call calls) :: segs).
        split; [exact (extends_trans Hext1 Hext)|].
        constructor.
        -- exists k0, h, calls. now repeat split.
        -- eapply Forall_impl; [|exact Hsegs].
           intros seg (k & h' & calls' & Hl & Hn & Hlen' & Hseg).
           exists k, h', calls'. repeat split; try assumption.
           destruct (string_dec k k0) as [->|Hne]; [congruence|].
           now rewrite <- (Hfr _ Hne).
    + injection Hrun as <- <-.
      apply removeStep_cases in Estep.
      destruct Estep as [El Hr Hs|h El Hin Hr Hs|h El Hin Hch];
        try discriminate.
      apply changed_frame in Hch.
      destruct Hch as (_ & _ & _ & calls & Hlen & _ & Hext1 & _).
      exists [Invoke k0 (value h) VNull :: map Call calls].
      split; [simpl; now rewrite app_nil_r|].
      constructor; [|constructor]. exists k0, h, calls. now repeat split.
Qed.

Lemma updateStep_segment (kv : string * jsval) (ov : jsval) (s s' : state)
  (r : outcome jsval) :
  updateStep kv ov s = (r, s') ->
  exists seg, extends s s' seg /\ update_segment kv seg.
Proof.
  destruct kv as [k v]. intros Hstep. apply updateStep_cases in Hstep.
  destruct Hstep as [h El Hv Hr Hs|El Hv Ho Hr Hs|El Hv Ho Hr Hs
                    |h El Hv Hch|El Hv Hch];
    try (subst s'; exists []; split; [apply extends_refl|now left]);
    apply changed_frame in Hch;
    destruct Hch as (_ & _ & _ & calls & Hlen & _ & Hext & _);
    eexists; (split; [exact Hext|]); right; eexists; exists calls; now split.
Qed.

Lemma loop2_segments (newAttrs : list (string * jsval)) :
  forall (s s' : state) (ov : jsval) (r : outcome jsval),
    for_in newAttrs updateStep ov s = (r, s') ->
    exists segs visited rest,
      extends s s' (concat segs)
      /\ newAttrs = visited ++ rest
      /\ Forall2 update_segment visited segs
      /\ (forall ov', r = Return ov' -> rest = []).
Proof.
  induction newAttrs as [|kv more IH]; intros s s' ov r Hrun.
  - rewrite for_in_nil in Hrun. injection Hrun as <- <-.
    exists [], [], []. repeat split; try constructor. apply extends_refl.
  - rewrite for_in_cons in Hrun.
    destruct (updateStep kv ov s) as [[ov1|e] s1] eqn:Estep;
      apply updateStep_segment in Estep; destruct Estep as (seg & Hext & Hseg).
    + destruct (IH s1 s' ov1 r Hrun)
        as (segs & visited & rest & Hext' & Heq & Hall & Hret).
      exists (seg :: segs), (kv :: visited), rest.
      split; [exact (extends_trans Hext Hext')|].
      split; [simpl; now f_equal|]. split; [now constructor|assumption].
    + injection Hrun as <- <-.
      exists [seg], [kv], more.
      split; [simpl; now rewrite app_nil_r|].
      split; [reflexivity|].
      split; [constructor; [assumption|constructor]|discriminate].
Qed.

(** ** A call to [update] that returns *)

Lemma update_loops (newAttrs : list (string * jsval)) (s s' : state)
  (r : outcome unit) :
  update newAttrs s = (r, s') ->
  (exists e, r = Throw e
             /\ for_in (keys (handlers s)) (removeStep newAttrs) VUndefined s
                = (Throw e, s'))
  \/ (exists ov1 s1 r2,
        for_in (keys (handlers s)) (removeStep newAttrs) VUndefined s
        = (Return ov1, s1)
        /\ for_in newAttrs updateStep ov1 s1 = (r2, s')
        /\ r = match r2 with Return _ => Return tt | Throw e => Throw e end).
Proof.
  rewrite update_eq.
  destruct (for_in _ _ _ s) as [[ov1|e] s1] eqn:E1.
  - destruct (for_in _ _ _ s1) as [r2 s2] eqn:E2.
    intros H. right. exists ov1, s1, r2.
    destruct r2; injection H as <- <-; now repeat split.
  - intros H. injection H as <- <-. left. now exists e.
Qed.

Lemma update_return (newAttrs : list (string * jsval)) (s s' : state) :
  NoDup (keys newAttrs) ->
  tracked_nonnull s ->
  update newAttrs s = (Return tt, s') ->
  sameNode (elem s) (elem s')
  /\ exists t1 t2,
      extends s s' (t1 ++ t2)
      /\ forall k,
          lookup String.eqb k (handlers s')
          = match lookup String.eqb k newAttrs with
            | None => None
            | Some v =>
                if strict_eq v VNull then None
                else Some match lookup String.eqb k (handlers s) with
                          | Some h => set_value h v
                          | None => makeAttributeHandler (elem s) k v
                          end
            end
          /\ invocations_of k t1
             = match lookup String.eqb k (handlers s),
                     lookup String.eqb k newAttrs with
               | Some h, None => [Invoke k (value h) VNull]
               | _, _ => []
               end
          /\ invocations_of k t2 = expected_invocations s newAttrs k.
Proof.
  intros Hnd Hnn Hrun. apply update_loops in Hrun.
  destruct Hrun as [(e & Hr & _)|(ov1 & s1 & r2 & H1 & H2 & Hr)];
    [discriminate|].
  destruct r2 as [ov2|e]; [|discriminate].
  assert (tracked_nonnull s1) as Hnn1
    by (eapply loop1_tracked_nonnull; eassumption).
  apply loop1_return in H1. destruct H1 as (Hsame1 & t1 & Hext1 & Hall1).
  eapply loop2_return in H2; [|assumption|assumption].
  destruct H2 as (Hsame2 & t2 & Hext2 & Hall2).
  split; [eapply sameNode_trans; eassumption|].
  exists t1, t2. split; [eapply extends_trans; eassumption|].
  intros k. destruct (Hall1 k) as (Hh1 & Hi1), (Hall2 k) as (Hh2 & Hi2).
  rewrite Hh2, Hi1, Hi2.
  unfold expected_handler, expected_invocations, removed_key.
  rewrite Hh1. unfold removed_key. rewrite hasOwnProperty_lookup.
  destruct (lookup String.eqb k newAttrs) as [v|] eqn:EM; simpl.
  - rewrite andb_false_r.
    rewrite (makeAttributeHandler_sameNode _ _ Hsame1).
    split; [reflexivity|].
    split; [now destruct (lookup String.eqb k (handlers s))|reflexivity].
  - rewrite andb_true_r.
    destruct (lookup String.eqb k (handlers s)) as [h|] eqn:Eh.
    + assert (_arrayContains (keys (handlers s)) k = true) as ->.
      { apply _arrayContains_In. apply lookup_Some_In in Eh.
        change k with (fst (k, h)). now apply in_map. }
      now repeat split.
    + now destruct (_arrayContains (keys (handlers s)) k).
Qed.

(** ** A name that is not tracked and has no value other than [null] *)

Lemma loop1_untracked (newAttrs : list (string * jsval)) (ks : list string)
  (k : string) :
  forall (s s' : state) (ov : jsval) (r : outcome jsval),
    lookup String.eqb k (handlers s) = None ->
    for_in ks (removeStep newAttrs) ov s = (r, s') ->
    lookup String.eqb k (handlers s') = None
    /\ exists t, extends s s' t /\ invocations_of k t = [].
Proof.
  induction ks as [|k0 rest IH]; intros s s' ov r Hk Hrun.
  - rewrite for_in_nil in Hrun. injection Hrun as <- <-.
    split; [assumption|]. exists []. split; [apply extends_refl|reflexivity].
  - rewrite for_in_cons in Hrun.
    destruct (removeStep newAttrs k0 ov s) as [r1 s1] eqn:Estep.
    assert (lookup String.eqb k (handlers s1) = None
            /\ exists t, extends s s1 t /\ invocations_of k t = [])
      as (Hk1 & t1 & Hext1 & Hi1).
    { apply removeStep_cases in Estep.
      destruct Estep as [El Hr Hs|h El Hin Hr Hs|h El Hin Hch];
        try (subst s1; split; [assumption|]; exists [];
             split; [apply extends_refl|reflexivity]).
      assert (k <> k0) as Hne by congruence.
      apply changed_frame in Hch.
      destruct Hch as (_ & Hfr & _ & calls & _ & _ & Hext & _).
      split; [now rewrite (Hfr _ Hne)|].
      eexists. split; [exact Hext|].
      rewrite invocations_of_segment.
      destruct (String.eqb_spec k0 k); congruence. }
    destruct r1 as [ov1|e].
    + destruct (IH s1 s' ov1 r Hk1 Hrun) as (Hk' & t2 & Hext2 & Hi2).
      split; [assumption|]. exists (t1 ++ t2).
      split; [eapply extends_trans; eassumption|].
      now rewrite invocations_of_app, Hi1, Hi2.
    + injection Hrun as <- <-. split; [assumption|]. now exists t1.
Qed.

Lemma loop2_untracked_null (newAttrs : list (string * jsval)) (k : string) :
  forall (s s' : state) (ov : jsval) (r : outcome jsval),
    lookup String.eqb k (handlers s) = None ->
    (forall v, In (k, v) newAttrs -> v = VNull) ->
    for_in newAttrs updateStep ov s = (r, s') ->
    lookup String.eqb k (handlers s') = None
    /\ exists t, extends s s' t /\ invocations_of k t = [].
Proof.
  induction newAttrs as [|[k0 v0] rest IH]; intros s s' ov r Hk Hnull Hrun.
  - rewrite for_in_nil in Hrun. injection Hrun as <- <-.
    split; [assumption|]. exists []. split; [apply extends_refl|reflexivity].
  - rewrite for_in_cons in Hrun.
    destruct (updateStep (k0, v0) ov s) as [r1 s1] eqn:Estep.
    assert (lookup String.eqb k (handlers s1) = None
            /\ exists t, extends s s1 t /\ invocations_of k t = [])
      as (Hk1 & t1 & Hext1 & Hi1).
    { apply updateStep_cases in Estep.
      destruct Estep as [h El Hv Hr Hs|El Hv Ho Hr Hs|El Hv Ho Hr Hs
                        |h El Hv Hch|El Hv Hch];
        try (subst s1; split; [assumption|]; exists [];
             split; [apply extends_refl|reflexivity]).
      - assert (k <> k0) as Hne by congruence.
        apply changed_frame in Hch.
        destruct Hch as (_ & Hfr & _ & calls & _ & _ & Hext & _).
        split; [now rewrite (Hfr _ Hne)|].
        eexists. split; [exact Hext|].
        rewrite invocations_of_segment.
        destruct (String.eqb_spec k0 k); congruence.
      - assert (k <> k0) as Hne.
        { intros ->. apply Hv, Hnull. now left. }
        apply changed_frame in Hch.
        destruct Hch as (_ & Hfr & _ & calls & _ & _ & Hext & _).
        split; [now rewrite (Hfr _ Hne)|].
        eexists. split; [exact Hext|].
        rewrite invocations_of_segment.
        destruct (String.eqb_spec k0 k); congruence. }
    destruct r1 as [ov1|e].
    + destruct (IH s1 s' ov1 r Hk1) as (Hk' & t2 & Hext2 & Hi2);
        [intros v Hin; apply Hnull; now right|assumption|].
      split; [assumption|]. exists (t1 ++ t2).
      split; [eapply extends_trans; eassumption|].
      now rewrite invocations_of_app, Hi1, Hi2.
    + injection Hrun as <- <-. split; [assumption|]. now exists t1.
Qed.

(** ** Calling [update] again with the same map *)

Lemma update_return_holds (newAttrs : list (string * jsval)) (s s' : state) :
  NoDup (keys newAttrs) ->
  tracked_nonnull s ->
  update newAttrs s = (Return tt, s') ->
  holds newAttrs s'.
Proof.
  intros Hnd Hnn Hrun. apply update_return in Hrun; try assumption.
  destruct Hrun as (_ & t1 & t2 & _ & Hall).
  intros k. destruct (Hall k) as (-> & _).
  destruct (lookup String.eqb k newAttrs) as [v|]; [|reflexivity].
  destruct (strict_eq v VNull); [reflexivity|].
  eexists. split; [reflexivity|].
  destruct (lookup String.eqb k (handlers s)); [reflexivity|].
  apply value_makeAttributeHandler.
Qed.

Lemma loop1_holds (newAttrs : list (string * jsval)) (ks : list string)
  (s : state) (ov : jsval) :
  holds newAttrs s ->
  for_in ks (removeStep newAttrs) ov s = (Return ov, s).
Proof.
  intros Hh. induction ks as [|k0 rest IH]; [reflexivity|].
  rewrite for_in_cons, removeStep_eq.
  destruct (lookup String.eqb k0 (handlers s)) as [h|] eqn:El; [|exact IH].
  rewrite hasOwnProperty_lookup. specialize (Hh k0).
  destruct (lookup String.eqb k0 newAttrs) as [v|]; [exact IH|congruence].
Qed.

Lemma loop2_holds (newAttrs : list (string * jsval)) (s : state) :
  holds newAttrs s ->
  forall (todo : list (string * jsval)) (ov : jsval),
    (forall k v, In (k, v) todo -> lookup String.eqb k newAttrs = Some v) ->
    ov <> VNull ->
    exists r,
      for_in todo updateStep ov s = (r, s)
      /\ if noNull todo then exists ov', r = Return ov'
         else r = Throw TypeError.
Proof.
  intros Hh. induction todo as [|[k v] rest IH]; intros ov Hin Hov.
  - exists (Return ov). split; [reflexivity|]. now exists ov.
  - rewrite for_in_cons, updateStep_eq. simpl noNull.
    pose proof (Hin k v (or_introl eq_refl)) as HM.
    specialize (Hh k). rewrite HM in Hh.
    destruct (strict_eq_spec v VNull) as [Hv|Hv].
    + subst v. rewrite Hh. simpl.
      assert (strict_neq ov VNull = true) as -> by now apply strict_neq_true.
      now exists (Throw TypeError).
    + destruct Hh as (h & -> & Hval). rewrite Hval, strict_neq_refl.
      assert (strict_neq v VNull = true) as -> by now apply strict_neq_true.
      simpl. apply IH; [|assumption].
      intros k' v' Hin'. apply Hin. now right.
Qed.

(** Once [update newAttrs] has returned, a second call changes nothing;
    it returns when no value of the map is [null] and throws a TypeError
    otherwise. *)
Lemma update_again (newAttrs : list (string * jsval)) (s : state) :
  NoDup (keys newAttrs) ->
  holds newAttrs s ->
  update newAttrs s
  = (if noNull newAttrs then Return tt else Throw TypeError, s).
Proof.
  intros Hnd Hh. rewrite update_eq, (loop1_holds _ _ Hh).
  destruct (@loop2_holds newAttrs s Hh newAttrs VUndefined) as (r & -> & Hr).
  - intros k v Hin. now apply In_lookup_NoDup.
  - discriminate.
  - destruct (noNull newAttrs); [now destruct Hr as (ov' & ->)|now subst r].
Qed.

(** ** Removing everything: [update] with the empty map *)

Section DictAbsent.
Variables (K V : Type) (keq : K -> K -> bool).
Hypothesis keq_spec : forall a b, reflect (a = b) (keq a b).

Lemma lookup_delete_absent (k : K) (d : list (K * V)) :
  lookup keq k (delete keq k d) = None.
Proof.
  induction d as [|[k' v'] d IH]; simpl; [reflexivity|].
  destruct (keq_spec k' k); simpl; [exact IH|].
  destruct (keq_spec k' k); [contradiction|exact IH].
Qed.

Lemma lookup_delete_None (k k' : K) (d : list (K * V)) :
  lookup keq k d = None -> lookup keq k (delete keq k' d) = None.
Proof.
  induction d as [|[k0 v0] d IH]; simpl; [reflexivity|].
  destruct (keq_spec k0 k); [discriminate|]. intros H.
  destruct (keq_spec k0 k'); simpl; [now apply IH|].
  destruct (keq_spec k0 k); [contradiction|now apply IH].
Qed.
End DictAbsent.

Lemma nskey_eqb_spec (a b : string * string) : reflect (a = b) (nskey_eqb a b).
Proof.
  destruct a as [a1 a2], b as [b1 b2]. unfold nskey_eqb. simpl.
  destruct (String.eqb_spec a1 b1), (String.eqb_spec a2 b2); simpl;
    constructor; congruence.
Qed.

Lemma makeAttributeHandler_selection (e : element) (k : string) (v : jsval) :
  selection e k (proto (makeAttributeHandler e k v))
                (name (makeAttributeHandler e k v)).
Proof.
  unfold makeAttributeHandler, isSVGElement.
  destruct (String.eqb_spec k "class") as [Hc|Hc].
  - destruct (ownerSVGElement e) eqn:Hs; simpl;
      [now apply Sel_svg_class|now apply Sel_class].
  - destruct (String.eqb_spec (tagName e) "OPTION") as [Ho|Ho];
      destruct (String.eqb_spec k "selected") as [Hsel|Hsel];
      destruct (String.eqb_spec (tagName e) "INPUT") as [Hi|Hi];
      destruct (String.eqb_spec k "checked") as [Hch|Hch];
      destruct (String.eqb_spec (tagName e) "TEXTAREA") as [Ht|Ht];
      destruct (String.eqb_spec k "value") as [Hv|Hv];
      simpl;
      try (apply Sel_boolean; [assumption|tauto]);
      try (apply Sel_value; [assumption|tauto]);
      try congruence;
      (destruct (String.eqb (substring 0 6 k) "xlink:"); simpl;
       [apply Sel_xlink; assumption| apply Sel_default; [assumption|tauto]]).
Qed.

Lemma after_calls_nil (s : state) : after_calls [] s = s.
Proof. unfold after_calls. simpl. rewrite app_nil_r. apply state_eta. Qed.

Lemma focusedControl_sameNode (e e' : element) :
  sameNode e e' -> focusedControl e' = focusedControl e.
Proof.
  intros (Ht & _ & Ha & Hp). unfold focusedControl. now rewrite Ht, Ha, Hp.
Qed.

Lemma BooleanHandler_focused_run (s : state) :
  tagName (elem s) = "OPTION" \/ tagName (elem s) = "INPUT" ->
  BooleanHandler_focused s = (Return (focusedControl (elem s)), s).
Proof.
  intros Htag. unfold BooleanHandler_focused, focusedControl, bind, get_elem.
  destruct Htag as [Ht|Ht]; rewrite Ht; simpl; [|reflexivity].
  now destruct (find _ _).
Qed.

(** the handler selected for [k], remembering a string, is removed
    without an error, by the calls of [removal_calls] *)
Lemma removal_run (k str : string) (s : state) :
  handler_update (makeAttributeHandler (elem s) k VNull) (VStr str) VNull s
  = (Return tt, after_calls (removal_calls (elem s) k str) s).
Proof.
  pose proof (makeAttributeHandler_selection (elem s) k VNull) as Hsel.
  unfold removal_calls.
  remember (makeAttributeHandler (elem s) k VNull) as h eqn:Hh.
  inversion Hsel as [Hk Hsvg Hp Hn|Hk Hsvg Hp Hn|Hk Htag Hp Hn
                    |Hk Htag Hp Hn|n Hk Hp Hn|Hk Hnv Hp Hn].
  - now apply ClassHandler_update_run.
  - now apply SVGClassHandler_update_run.
  - unfold handler_update. rewrite <- Hp.
    unfold BooleanHandler_update, bind.
    rewrite BooleanHandler_focused_run by tauto.
    rewrite <- Hn. simpl.
    destruct (focusedControl (elem s)); simpl;
      [now rewrite after_calls_nil|reflexivity].
  - unfold handler_update. rewrite <- Hp.
    unfold ValueHandler_update, bind, get_elem.
    destruct (isActiveElement (elem s)); simpl;
      [now rewrite after_calls_nil|reflexivity].
  - unfold handler_update. rewrite <- Hp. reflexivity.
  - unfold handler_update. rewrite <- Hp.
    unfold AttributeHandler_update. simpl. now rewrite <- Hn.
Qed.

Lemma removal_calls_sameNode (e e' : element) (k str : string) :
  sameNode e (run_calls (removal_calls e' k str) e).
Proof. apply run_calls_sameNode. Qed.

Lemma cleared_sameNode_proto (e e' : element) (k : string) :
  sameNode e e' ->
  proto (makeAttributeHandler e' k VNull) = proto (makeAttributeHandler e k VNull)
  /\ name (makeAttributeHandler e' k VNull)
     = name (makeAttributeHandler e k VNull).
Proof. intros H. now rewrite (makeAttributeHandler_sameNode _ _ H). Qed.

(** the removal for [k] clears the attribute of [k] *)
Lemma cleared_establish (e : element) (k str : string) :
  cleared k str (run_calls (removal_calls e k str) e).
Proof.
  pose proof (removal_calls_sameNode e e k str) as Hsame.
  unfold cleared.
  destruct (cleared_sameNode_proto k Hsame) as (-> & ->).
  rewrite (focusedControl_sameNode Hsame).
  destruct Hsame as (_ & _ & -> & _).
  pose proof (makeAttributeHandler_selection e k VNull) as Hsel.
  unfold removal_calls.
  remember (makeAttributeHandler e k VNull) as h eqn:Hh.
  inversion Hsel as [Hk Hsvg Hp Hn|Hk Hsvg Hp Hn|Hk Htag Hp Hn
                    |Hk Htag Hp Hn|n Hk Hp Hn|Hk Hnv Hp Hn];
    cbn [run_calls fold_left].
  - rewrite classList_setClassName, newClassName_tokens by assumption.
    intros t Ht Hin. unfold diffClasses in Hin. simpl in Hin.
    apply removeOld_In in Hin. destruct Hin as (_ & Hin).
    exact (Hin Ht).
  - rewrite classList_setAttribute_class, newClassName_tokens.
    intros t Ht Hin. unfold diffClasses in Hin. simpl in Hin.
    apply removeOld_In in Hin. destruct Hin as (_ & Hin).
    exact (Hin Ht).
  - intros ->. simpl. apply lookup_assign_eq.
  - intros ->. reflexivity.
  - simpl. apply lookup_delete_absent. apply nskey_eqb_spec.
  - simpl. apply lookup_delete_eq.
Qed.

(** the removal for another name leaves it cleared *)
Lemma cleared_preserve (e : element) (k k' str str' : string) :
  k <> k' ->
  cleared k str e ->
  cleared k str (run_calls (removal_calls e k' str') e).
Proof.
  intros Hne.
  pose proof (removal_calls_sameNode e e k' str') as Hsame.
  unfold cleared.
  destruct (cleared_sameNode_proto k Hsame) as (-> & ->).
  rewrite (focusedControl_sameNode Hsame).
  destruct Hsame as (_ & _ & -> & _).
  pose proof (makeAttributeHandler_selection e k VNull) as Hsel.
  pose proof (makeAttributeHandler_selection e k' VNull) as Hsel'.
  unfold removal_calls.
  remember (makeAttributeHandler e k VNull) as h eqn:Hh.
  remember (makeAttributeHandler e k' VNull) as h' eqn:Hh'.
  assert (forall cn, k' = "class" -> k <> "class" ->
            ownerSVGElement e = false ->
            attributes (apply_call (setClassName cn) e)
            = assign String.eqb "class" cn (attributes e)) as Hset.
  { intros cn _ _ Hsvg. simpl. now rewrite Hsvg. }
  inversion Hsel as [Hk Hsvg Hp Hn|Hk Hsvg Hp Hn|Hk Htag Hp Hn
                    |Hk Htag Hp Hn|n Hk Hp Hn|Hk Hnv Hp Hn];
    inversion Hsel' as [Hk' Hsvg' Hp' Hn'|Hk' Hsvg' Hp' Hn'|Hk' Htag' Hp' Hn'
                       |Hk' Htag' Hp' Hn'|n' Hk' Hp' Hn'|Hk' Hnv' Hp' Hn'];
    try congruence;
    try (destruct (focusedControl e); simpl; now auto);
    try (destruct (isActiveElement e); simpl; now auto);
    simpl; intros Hc; try assumption;
    try (unfold classList, classAttr in *; simpl;
         rewrite ?lookup_delete_neq by congruence; assumption);
    try (rewrite Hsvg'; simpl);
    try (rewrite lookup_assign_neq by congruence; assumption);
    try (apply lookup_delete_None; [apply String.eqb_spec|assumption]);
    try (apply lookup_delete_None; [apply nskey_eqb_spec|assumption]).
  all: try (intros Hf; specialize (Hc Hf);
            destruct (focusedControl e); simpl; try assumption;
            rewrite lookup_assign_neq by congruence; assumption).
  all: congruence.
Qed.

Lemma wf_tracked_nonnull (s : state) : wf s -> tracked_nonnull s.
Proof.
  intros Hwf k h Hl. destruct (Hwf k h Hl) as (str & ->).
  now rewrite value_makeAttributeHandler.
Qed.

Lemma removeStep_clear (k str : string) (ov : jsval) (s : state) :
  lookup String.eqb k (handlers s)
  = Some (makeAttributeHandler (elem s) k (VStr str)) ->
  removeStep [] k ov s
  = (Return (VStr str),
     mkState (run_calls (removal_calls (elem s) k str) (elem s))
       (delete String.eqb k (handlers s))
       (trace s ++ Invoke k (VStr str) VNull
                :: map Call (removal_calls (elem s) k str))).
Proof.
  intros Hl. rewrite removeStep_eq, Hl. cbn [hasOwnProperty lookup].
  unfold changed. rewrite invoke_eq, set_value_makeAttributeHandler.
  rewrite value_makeAttributeHandler.
  unfold with_handlers. cbn [elem handlers trace].
  rewrite (removal_run k str
             (mkState (elem s) _ (trace s ++ [Invoke k (VStr str) VNull]))).
  cbn [strict_eq]. unfold after_calls, with_handlers.
  cbn [elem handlers trace]. rewrite <- app_assoc. simpl.
  f_equal. f_equal.
  clear. induction (handlers s) as [|[k0 h0] d IH]; simpl.
  - now rewrite String.eqb_refl.
  - destruct (String.eqb k0 k) eqn:E; simpl; rewrite E; [reflexivity|].
    now rewrite IH.
Qed.

(** the first loop against the empty map, on a well-formed table *)
Lemma loop1_clear (ks : list string) :
  forall (s : state) (ov : jsval),
    wf s ->
    exists ov' s',
      for_in ks (removeStep []) ov s = (Return ov', s')
      /\ wf s'
      /\ sameNode (elem s) (elem s')
      /\ (forall k, lookup String.eqb k (handlers s') = None
                    \/ (~ In k ks
                        /\ lookup String.eqb k (handlers s')
                           = lookup String.eqb k (handlers s)))
      /\ (forall k str,
             lookup String.eqb k (handlers s) = None ->
             cleared k str (elem s) -> cleared k str (elem s'))
      /\ (forall k str,
             lookup String.eqb k (handlers s)
             = Some (makeAttributeHandler (elem s) k (VStr str)) ->
             In k ks -> cleared k str (elem s')).
Proof.
  induction ks as [|k0 rest IH]; intros s ov Hwf.
  - exists ov, s. rewrite for_in_nil.
    split; [reflexivity|]. split; [assumption|].
    split; [apply sameNode_refl|].
    split; [intros k; right; now split|]. split; [now intros|].
    intros k str _ [].
  - rewrite for_in_cons.
    destruct (lookup String.eqb k0 (handlers s)) as [h0|] eqn:El.
    + destruct (Hwf _ _ El) as (str0 & ->).
      rewrite (@removeStep_clear k0 str0 ov s El).
      set (s1 := mkState _ _ _).
      assert (sameNode (elem s) (elem s1)) as Hsame1
        by apply run_calls_sameNode.
      assert (wf s1) as Hwf1.
      { intros k h. simpl.
        destruct (string_dec k k0) as [->|Hne].
        - now rewrite lookup_delete_eq.
        - rewrite lookup_delete_neq by assumption. intros Hl.
          destruct (Hwf _ _ Hl) as (str & ->). exists str.
          symmetry. apply makeAttributeHandler_sameNode, Hsame1. }
      destruct (IH s1 (VStr str0) Hwf1)
        as (ov' & s' & Hrun & Hwf' & Hsame' & Hlk & Hpres & Hest).
      exists ov', s'. split; [assumption|]. split; [assumption|].
      split; [eapply sameNode_trans; eassumption|].
      split; [|split].
      * intros k. destruct (Hlk k) as [Hn|(Hnin & Heq)]; [now left|].
        destruct (string_dec k k0) as [->|Hne].
        -- left. rewrite Heq. simpl. apply lookup_delete_eq.
        -- right. split; [simpl; intuition congruence|].
           rewrite Heq. simpl. now apply lookup_delete_neq.
      * intros k str Hl Hc. apply Hpres.
        -- simpl. assert (k <> k0) as Hne by congruence.
           now rewrite lookup_delete_neq.
        -- apply cleared_preserve; congruence.
      * intros k str Hl Hin. destruct (string_dec k k0) as [->|Hne].
        -- apply Hpres; [simpl; apply lookup_delete_eq|].
           rewrite El in Hl. injection Hl as Hl.
           apply (f_equal value) in Hl.
           rewrite !value_makeAttributeHandler in Hl. injection Hl as ->.
           apply cleared_establish.
        -- apply Hest.
           ++ simpl. rewrite lookup_delete_neq by assumption. rewrite Hl.
              f_equal. symmetry.
              apply makeAttributeHandler_sameNode, Hsame1.
           ++ destruct Hin as [->|Hin]; [contradiction|assumption].
    + rewrite removeStep_eq, El.
      destruct (IH s ov Hwf)
        as (ov' & s' & Hrun & Hwf' & Hsame' & Hlk & Hpres & Hest).
      exists ov', s'. split; [assumption|]. split; [assumption|].
      split; [assumption|]. split; [|split; [assumption|]].
      * intros k. destruct (Hlk k) as [Hn|(Hnin & Heq)]; [now left|].
        destruct (string_dec k k0) as [->|Hne].
        -- left. now rewrite Heq.
        -- right. split; [simpl; intuition congruence|assumption].
      * intros k str Hl [->|Hin]; [congruence|]. now apply Hest.
Qed.

Lemma lookup_all_None {V} (d : list (string * V)) :
  (forall k, lookup String.eqb k d = None) -> d = [].
Proof.
  destruct d as [|[k v] d]; [reflexivity|].
  intros H. specialize (H k). simpl in H.
  now rewrite String.eqb_refl in H.
Qed.

(** [update] keeps the table well formed when it returns and the map
    holds strings and [null] only *)
Lemma update_wf (newAttrs : list (string * jsval)) (s s' : state) :
  NoDup (keys newAttrs) ->
  (forall k v, In (k, v) newAttrs -> is_string_or_null v = true) ->
  wf s ->
  update newAttrs s = (Return tt, s') ->
  wf s'.
Proof.
  intros Hnd Hstr Hwf Hrun.
  apply update_return in Hrun;
    [|assumption|now apply wf_tracked_nonnull].
  destruct Hrun as (Hsame & t1 & t2 & _ & Hall).
  intros k h. destruct (Hall k) as (-> & _).
  destruct (lookup String.eqb k newAttrs) as [v|] eqn:EM; [|discriminate].
  apply lookup_Some_In in EM. apply Hstr in EM.
  destruct v as [| |b|str|n]; try discriminate. simpl.
  intros Hh. injection Hh as <-. exists str.
  rewrite (makeAttributeHandler_sameNode _ _ Hsame).
  destruct (lookup String.eqb k (handlers s)) as [h0|] eqn:El; [|reflexivity].
  destruct (Hwf _ _ El) as (str0 & ->).
  apply set_value_makeAttributeHandler.
Qed.

(** ** Well-formed tables are an invariant *)

(** a handler selected by [makeAttributeHandler] for the element does not
    throw on strings and [null] *)
Lemma handler_update_total (k : string) (oldValue v : jsval) (s : state) :
  is_string_or_null oldValue = true ->
  is_string_or_null v = true ->
  exists s',
    handler_update (makeAttributeHandler (elem s) k v) oldValue v s
    = (Return tt, s').
Proof.
  intros Ho Hv.
  pose proof (makeAttributeHandler_selection (elem s) k v) as Hsel.
  remember (makeAttributeHandler (elem s) k v) as h eqn:Hh.
  inversion Hsel as [Hk Hsvg Hp Hn|Hk Hsvg Hp Hn|Hk Htag Hp Hn
                    |Hk Htag Hp Hn|n Hk Hp Hn|Hk Hnv Hp Hn].
  - eexists. now apply ClassHandler_update_run.
  - eexists. now apply SVGClassHandler_update_run.
  - unfold handler_update. rewrite <- Hp.
    unfold BooleanHandler_update, bind.
    rewrite BooleanHandler_focused_run by tauto.
    destruct (focusedControl (elem s)); simpl; [now eexists|].
    destruct (loose_eq_null v); [destruct (loose_eq_null oldValue)|];
      simpl; now eexists.
  - unfold handler_update. rewrite <- Hp.
    unfold ValueHandler_update, bind, get_elem.
    destruct (isActiveElement (elem s)); simpl; now eexists.
  - unfold handler_update. rewrite <- Hp. unfold XlinkHandler_update.
    destruct (strict_eq v VNull); [destruct (strict_neq oldValue VNull)|];
      now eexists.
  - unfold handler_update. rewrite <- Hp. unfold AttributeHandler_update.
    destruct (strict_eq v VNull); [destruct (strict_neq oldValue VNull)|];
      now eexists.
Qed.

Lemma changed_total (k : string) (oldValue v : jsval) (s : state) :
  is_string_or_null oldValue = true ->
  is_string_or_null v = true ->
  exists s',
    changed k (makeAttributeHandler (elem s) k v) oldValue v s
    = (Return oldValue, s').
Proof.
  intros Ho Hv. unfold changed. rewrite invoke_eq.
  destruct (@handler_update_total k oldValue v
              (mkState (elem s)
                 (assign String.eqb k (makeAttributeHandler (elem s) k v)
                    (handlers s))
                 (trace s ++ [Invoke k oldValue v])) Ho Hv) as (s' & Hrun).
  cbn [elem] in Hrun. unfold with_handlers. cbn [elem handlers trace].
  rewrite Hrun. now eexists.
Qed.

(** a step that changed the entry of [k] on a well-formed table *)
Lemma changed_wf (k : string) (oldValue v : jsval) (s s' : state)
  (r : outcome jsval) :
  wf s ->
  is_string_or_null v = true ->
  changed k (makeAttributeHandler (elem s) k v) oldValue v s = (r, s') ->
  r = Return oldValue ->
  wf s'.
Proof.
  intros Hwf Hv Hch Hr. apply changed_frame in Hch.
  destruct Hch as (Hsame & Hfr & Hlk & _). subst r.
  intros k' h'. destruct (string_dec k' k) as [->|Hne].
  - rewrite Hlk. destruct v as [| |b|str|n]; try discriminate; simpl.
    intros H. injection H as <-. exists str.
    symmetry. now apply makeAttributeHandler_sameNode.
  - rewrite (Hfr _ Hne). intros Hl. destruct (Hwf _ _ Hl) as (str & ->).
    exists str. symmetry. now apply makeAttributeHandler_sameNode.
Qed.

Lemma updateStep_wf (kv : string * jsval) (ov : jsval) (s s' : state)
  (r : outcome jsval) :
  wf s ->
  is_string_or_null (snd kv) = true ->
  updateStep kv ov s = (r, s') ->
  wf s'
  /\ ((exists ov', r = Return ov' /\ (ov' = ov \/ is_string_or_null ov' = true))
      \/ r = Throw TypeError).
Proof.
  destruct kv as [k v]. simpl. intros Hwf Hv Hstep.
  apply updateStep_cases in Hstep.
  destruct Hstep as [h El Hval Hr Hs|El Hvn Ho Hr Hs|El Hvn Ho Hr Hs
                    |h El Hval Hch|El Hvn Hch].
  - subst. split; [assumption|]. left. eexists. split; [reflexivity|].
    now right.
  - subst. split; [assumption|]. left. eexists. split; [reflexivity|].
    now right.
  - subst. split; [assumption|]. now right.
  - destruct (Hwf _ _ El) as (str & ->).
    rewrite set_value_makeAttributeHandler, value_makeAttributeHandler in Hch.
    destruct (@changed_total k (VStr str) v s eq_refl Hv) as (s2 & Hrun).
    rewrite Hrun in Hch. injection Hch as <- <-.
    split; [eapply changed_wf; eauto|].
    left. eexists. split; [reflexivity|now right].
  - destruct (@changed_total k VNull v s eq_refl Hv) as (s2 & Hrun).
    rewrite Hrun in Hch. injection Hch as <- <-.
    split; [eapply changed_wf; eauto|].
    left. eexists. split; [reflexivity|now right].
Qed.

Lemma removeStep_wf (newAttrs : list (string * jsval)) (k : string)
  (ov : jsval) (s s' : state) (r : outcome jsval) :
  wf s ->
  removeStep newAttrs k ov s = (r, s') ->
  wf s' /\ exists ov', r = Return ov'.
Proof.
  intros Hwf Hstep. apply removeStep_cases in Hstep.
  destruct Hstep as [El Hr Hs|h El Hin Hr Hs|h El Hin Hch].
  - subst. split; [assumption|now eexists].
  - subst. split; [assumption|now eexists].
  - destruct (Hwf _ _ El) as (str & ->).
    rewrite set_value_makeAttributeHandler, value_makeAttributeHandler in Hch.
    destruct (@changed_total k (VStr str) VNull s eq_refl eq_refl)
      as (s2 & Hrun).
    rewrite Hrun in Hch. injection Hch as <- <-.
    split; [|now eexists].
    exact (@changed_wf k (VStr str) VNull s s2 _ Hwf eq_refl Hrun eq_refl).
Qed.

Lemma loop1_wf (newAttrs : list (string * jsval)) (ks : list string) :
  forall (s s' : state) (ov : jsval) (r : outcome jsval),
    wf s ->
    for_in ks (removeStep newAttrs) ov s = (r, s') ->
    wf s' /\ exists ov', r = Return ov'.
Proof.
  induction ks as [|k0 rest IH]; intros s s' ov r Hwf Hrun.
  - rewrite for_in_nil in Hrun. injection Hrun as <- <-.
    split; [assumption|now eexists].
  - rewrite for_in_cons in Hrun.
    destruct (removeStep newAttrs k0 ov s) as [r1 s1] eqn:Estep.
    apply removeStep_wf in Estep; [|assumption].
    destruct Estep as (Hwf1 & ov1 & ->). now apply IH in Hrun.
Qed.

Lemma loop2_wf (newAttrs : list (string * jsval)) :
  forall (s s' : state) (ov : jsval) (r : outcome jsval),
    wf s ->
    (forall k v, In (k, v) newAttrs -> is_string_or_null v = true) ->
    for_in newAttrs updateStep ov s = (r, s') ->
    wf s' /\ ((exists ov', r = Return ov') \/ r = Throw TypeError).
Proof.
  induction newAttrs as [|[k0 v0] rest IH]; intros s s' ov r Hwf Hstr Hrun.
  - rewrite for_in_nil in Hrun. injection Hrun as <- <-.
    split; [assumption|]. left. now eexists.
  - rewrite for_in_cons in Hrun.
    destruct (updateStep (k0, v0) ov s) as [r1 s1] eqn:Estep.
    apply updateStep_wf in Estep;
      [|assumption|apply (Hstr k0 v0); now left].
    destruct Estep as (Hwf1 & [(ov1 & -> & _)| ->]).
    + apply IH in Hrun; [assumption|assumption|].
      intros k v Hin. apply (Hstr k v). now right.
    + injection Hrun as <- <-. split; [assumption|now right].
Qed.

(** On a well-formed table and a map of strings and [null]s, [update]
    returns or throws a TypeError, and leaves the table well formed
    either way. *)
Lemma update_wf_any (newAttrs : list (string * jsval)) (s s' : state)
  (r : outcome unit) :
  wf s ->
  (forall k v, In (k, v) newAttrs -> is_string_or_null v = true) ->
  update newAttrs s = (r, s') ->
  wf s' /\ (r = Return tt \/ r = Throw TypeError).
Proof.
  intros Hwf Hstr Hrun. apply update_loops in Hrun.
  destruct Hrun as [(e & Hr & H1)|(ov1 & s1 & r2 & H1 & H2 & Hr)].
  - apply loop1_wf in H1; [|assumption].
    destruct H1 as (_ & ov' & Habs). discriminate.
  - apply loop1_wf in H1; [|assumption]. destruct H1 as (Hwf1 & _).
    apply loop2_wf in H2; [|assumption|assumption].
    destruct H2 as (Hwf2 & [(ov2 & ->)| ->]); subst r; auto.
Qed.

Lemma wf_fresh (e : element) : wf (ElementAttributesUpdater e).
Proof. intros k h H. discriminate. Qed.

(** Every reachable state has a well-formed table, whose handlers thus
    remember strings. *)
Lemma reachable_wf (s : state) : reachable s -> wf s.
Proof.
  induction 1 as [e|s s' newAttrs r _ IH Hstr Hrun|s e' _ IH Htag Hsvg].
  - apply wf_fresh.
  - eapply update_wf_any; eassumption.
  - intros k h Hl. destruct (IH _ _ Hl) as (str & ->). exists str.
    simpl. unfold makeAttributeHandler, isSVGElement. now rewrite Htag, Hsvg.
Qed.

(** Calling [update] twice with the same map: the second call changes
    nothing; it returns when the map has no [null] value and throws a
    TypeError when it has one. *)
Lemma update_twice (newAttrs : list (string * jsval)) (s s1 : state) :
  NoDup (keys newAttrs) ->
  tracked_nonnull s ->
  update newAttrs s = (Return tt, s1) ->
  update newAttrs s1
  = (if noNull newAttrs then Return tt else Throw TypeError, s1).
Proof.
  intros Hnd Hnn Hrun. apply update_again; [assumption|].
  eapply update_return_holds; eassumption.
Qed.

(** * The claims *)

(** C1. Token-set preservation: with remembered class value "a" and a live
    token set {"a","b"} ("b" added from outside), [update] with class
    "a c" returns and leaves the live set {"a","b","c"}, writing the class
    list once.  In general the class handlers first drop the old tokens
    that are not new tokens and then append, once each, the new tokens
    that are neither old nor live. *)
Theorem C1_token_set_preservation :
  (forall (e : element) (tr : list event),
      classList e = ["a"; "b"] ->
      exists c,
        update [("class", VStr "a c")]
          (mkState e [("class", makeAttributeHandler e "class" (VStr "a"))] tr)
        = (Return tt,
           mkState (apply_call c e)
             [("class", makeAttributeHandler e "class" (VStr "a c"))]
             (tr ++ [Invoke "class" (VStr "a") (VStr "a c"); Call c]))
        /\ classList (apply_call c e) = ["a"; "b"; "c"])
  /\ (forall oldClasses newClasses live : list string,
         exists added,
           diffClasses oldClasses newClasses live
           = filter (fun c => negb (_arrayContains oldClasses c
                                    && negb (_arrayContains newClasses c)))
               live ++ added
           /\ NoDup added
           /\ forall c, In c added
                        <-> In c newClasses /\ ~ In c oldClasses
                            /\ ~ In c live).
Proof.
  split.
  - intros e tr Hlive.
    destruct (@update_class_tracked e tr "a" "a c") as (c & Hrun & Hcl);
      [discriminate|].
    exists c. split; [exact Hrun|]. rewrite Hcl, Hlive. reflexivity.
  - intros oldClasses newClasses live. unfold diffClasses.
    destruct (addNew_app oldClasses newClasses
                (removeOld oldClasses newClasses live))
      as (added & Heq & Hnd & Hin).
    exists added. rewrite Heq, removeOld_filter.
    split; [reflexivity|]. split; [assumption|].
    intros c. rewrite Hin, removeOld_In. tauto.
Qed.

Lemma C1_token_set_preservation_witness :
  exists c,
    update [("class", VStr "a c")]
      (mkState (withClass div "a b")
         [("class", makeAttributeHandler (withClass div "a b") "class"
                      (VStr "a"))] [])
    = (Return tt,
       mkState (apply_call c (withClass div "a b"))
         [("class", makeAttributeHandler (withClass div "a b") "class"
                      (VStr "a c"))]
         ([] ++ [Invoke "class" (VStr "a") (VStr "a c"); Call c]))
    /\ classList (apply_call c (withClass div "a b")) = ["a"; "b"; "c"].
Proof.
  apply (proj1 C1_token_set_preservation (withClass div "a b") []).
  reflexivity.
Defined.

(** C2. Token-set removal: with remembered class value "a b", [update] with
    class "b" returns and removes exactly the token "a" from the live
    token set, whatever that set is: every other live token, "b" and
    those added from outside included, stays. *)
Theorem C2_token_set_removal (e : element) (tr : list event) :
  exists c,
    update [("class", VStr "b")]
      (mkState e [("class", makeAttributeHandler e "class" (VStr "a b"))] tr)
    = (Return tt,
       mkState (apply_call c e)
         [("class", makeAttributeHandler e "class" (VStr "b"))]
         (tr ++ [Invoke "class" (VStr "a b") (VStr "b"); Call c]))
    /\ classList (apply_call c e) = _arrayWithout (classList e) "a"
    /\ ~ In "a" (classList (apply_call c e))
    /\ forall t, In t (classList (apply_call c e))
                 <-> In t (classList e) /\ t <> "a".
Proof.
  destruct (@update_class_tracked e tr "a b" "b") as (c & Hrun & Hcl);
    [discriminate|].
  exists c. split; [exact Hrun|].
  assert (classList (apply_call c e) = _arrayWithout (classList e) "a") as Heq.
  { rewrite Hcl. reflexivity. }
  split; [exact Heq|]. rewrite Heq. split.
  - rewrite _arrayWithout_In. tauto.
  - intros t. apply _arrayWithout_In.
Qed.

(** C3. Idempotence, at the map {id: "a", disabled: null} on a fresh
    updater of a plain element: the first [update] returns; the second
    call makes no call and invokes no handler, but it does not complete:
    it throws a TypeError, because for the untracked name "disabled"
    the variable [oldValue] still holds "a" from the previous iteration
    and [handler] is [null]. *)
Theorem C3_second_update_throws :
  exists s1,
    update [("id", VStr "a"); ("disabled", VNull)] (ElementAttributesUpdater div)
    = (Return tt, s1)
    /\ update [("id", VStr "a"); ("disabled", VNull)] s1
       = (Throw TypeError, s1).
Proof. eexists. split; reflexivity. Qed.

(** C4. On a fresh updater of a plain element,
    [update {id: "a", class: "foo", disabled: null}] returns with
    attribute id = "a", class tokens {"foo"}, no attribute "disabled",
    and exactly two calls on the element, one for id and one for class.
    In any call to [update], a name that is not tracked and whose value is
    [null] gets no handler invocation (hence no call) and stays
    untracked. *)
Theorem C4_fresh_update_scenario :
  (forall (tag : string) (props : list (string * bool)) (val : string)
          (active : bool) (parents : list (string * bool)),
      let e := mkElement tag false [] [] props val active parents in
      exists s',
        update [("id", VStr "a"); ("class", VStr "foo"); ("disabled", VNull)]
          (ElementAttributesUpdater e)
        = (Return tt, s')
        /\ attributes (elem s') = [("id", "a"); ("class", "foo")]
        /\ classList (elem s') = ["foo"]
        /\ lookup String.eqb "disabled" (attributes (elem s')) = None
        /\ trace s' = [Invoke "id" VNull (VStr "a");
                       Call (setAttribute "id" (VStr "a"));
                       Invoke "class" VNull (VStr "foo");
                       Call (setClassName "foo")]
        /\ keys (handlers s') = ["id"; "class"])
  /\ (forall (newAttrs : list (string * jsval)) (k : string) (s s' : state)
             (r : outcome unit),
         lookup String.eqb k (handlers s) = None ->
         (forall v, In (k, v) newAttrs -> v = VNull) ->
         update newAttrs s = (r, s') ->
         lookup String.eqb k (handlers s') = None
         /\ exists t, trace s' = trace s ++ t /\ invocations_of k t = []).
Proof.
  split.
  - intros tag props val active parents e. subst e.
    unfold ElementAttributesUpdater. eexists.
    split; [|repeat split].
    + run_update_values. unfold makeAttributeHandler, isSVGElement.
      cbn [tagName ownerSVGElement String.eqb Ascii.eqb Bool.eqb substring
           String.length Nat.sub andb orb].
      rewrite !andb_false_r.
      cbn [orb set_value value proto name]. unfold changed. rewrite !invoke_eq.
      run_update_values. reflexivity.
    + reflexivity.
    + reflexivity.
    + reflexivity.
    + reflexivity.
    + reflexivity.
  - intros newAttrs k s s' r Hk Hnull Hrun.
    apply update_loops in Hrun.
    destruct Hrun as [(e & _ & H1)|(ov1 & s1 & r2 & H1 & H2 & _)].
    + eapply loop1_untracked in H1; [|exact Hk].
      destruct H1 as (Hk' & t & Hext & Hi). split; [assumption|]. now exists t.
    + eapply loop1_untracked in H1; [|exact Hk].
      destruct H1 as (Hk1 & t1 & Hext1 & Hi1).
      eapply loop2_untracked_null in H2; [|exact Hk1|exact Hnull].
      destruct H2 as (Hk2 & t2 & Hext2 & Hi2).
      split; [assumption|]. exists (t1 ++ t2).
      split; [exact (extends_trans Hext1 Hext2)|].
      now rewrite invocations_of_app, Hi1, Hi2.
Qed.

Lemma C4_fresh_update_scenario_witness :
  lookup String.eqb "disabled" (handlers (ElementAttributesUpdater div)) = None
  /\ (forall v, In ("disabled", v) [("disabled", VNull)] -> v = VNull)
  /\ lookup String.eqb "disabled"
       (handlers (snd (update [("disabled", VNull)]
                         (ElementAttributesUpdater div)))) = None.
Proof.
  split; [reflexivity|].
  split; [intros v [H|[]]; now injection H as <-|].
  apply (proj2 C4_fresh_update_scenario [("disabled", VNull)] "disabled"
           (ElementAttributesUpdater div) _
           (fst (update [("disabled", VNull)] (ElementAttributesUpdater div)))).
  - reflexivity.
  - intros v [H|[]]. now injection H as <-.
  - reflexivity.
Defined.

(** C5, as stated, fails: a focused input with no tracked "value" is
    left alone by [update {value: "x"}], and after it lost the focus the
    next [update {value: "x"}] still does not set the live value. *)
Lemma C5_counterexample :
  exists s1 s2,
    update [("value", VStr "x")] (ElementAttributesUpdater (input true))
    = (Return tt, s1)
    /\ valueProp (elem s1) = valueProp (input true)
    /\ update [("value", VStr "x")] (set_isActiveElement false s1)
       = (Return tt, s2)
    /\ valueProp (elem s2) <> "x".
Proof.
  do 2 eexists. split; [reflexivity|]. split; [reflexivity|].
  split; [reflexivity|]. discriminate.
Qed.

(** C5, amended. For a focused input or textarea with no tracked
    attribute, [update {value: x}] leaves the element as it is, makes no
    call and remembers [x].  Once the control has lost the focus, the next
    [update {value: x}] is skipped as unchanged: no invocation, no call,
    the live value stays.  An [update] with a value [y] other than [x]
    then sets the live value to [y]. *)
Theorem C5_focus_suppression (e : element) (x : string) :
  tagName e = "INPUT" \/ tagName e = "TEXTAREA" ->
  isActiveElement e = true ->
  let s1 := mkState e [("value", new ValueHandler "value" (VStr x))]
                    [Invoke "value" VNull (VStr x)] in
  update [("value", VStr x)] (ElementAttributesUpdater e) = (Return tt, s1)
  /\ update [("value", VStr x)] (set_isActiveElement false s1)
     = (Return tt, set_isActiveElement false s1)
  /\ forall y, y <> x ->
       exists s2,
         update [("value", VStr y)] (set_isActiveElement false s1)
         = (Return tt, s2)
         /\ valueProp (elem s2) = y
         /\ trace s2 = trace s1 ++ [Invoke "value" (VStr x) (VStr y);
                                    Call (setValueProp (VStr y))].
Proof.
  intros Htag Hact s1. subst s1.
  assert (forall v, makeAttributeHandler e "value" v
                    = new ValueHandler "value" v) as Hmk.
  { intros v. unfold makeAttributeHandler. simpl.
    rewrite !andb_false_r. simpl.
    destruct Htag as [-> | ->]; reflexivity. }
  split; [|split].
  - unfold ElementAttributesUpdater. run_update_values. rewrite Hmk.
    unfold changed. rewrite invoke_eq. run_update.
    unfold handler_update, ValueHandler_update, bind, get_elem. simpl.
    rewrite Hact. reflexivity.
  - unfold set_isActiveElement. run_update. reflexivity.
  - intros y Hne. eexists. unfold set_isActiveElement.
    split; [|split].
    + run_update.
      assert (strict_neq (VStr x) (VStr y) = true) as ->.
      { apply strict_neq_true. congruence. }
      unfold changed. rewrite invoke_eq. run_update. reflexivity.
    + reflexivity.
    + reflexivity.
Qed.

Lemma C5_focus_suppression_witness :
  update [("value", VStr "x")] (ElementAttributesUpdater (input true))
  = (Return tt,
     mkState (input true) [("value", new ValueHandler "value" (VStr "x"))]
       [Invoke "value" VNull (VStr "x")]).
Proof.
  apply (C5_focus_suppression (input true) "x" (or_introl eq_refl) eq_refl).
Defined.

(** C7, as stated, fails: [update {id: obj}] with a plain object as value
    returns normally and the attribute receives the stringified object. *)
Lemma C7_counterexample :
  exists s',
    update [("id", VObj 0)] (ElementAttributesUpdater div) = (Return tt, s')
    /\ is_string_or_null (VObj 0) = false
    /\ lookup String.eqb "id" (attributes (elem s')) = Some "[object Object]".
Proof. eexists. repeat split; reflexivity. Qed.

(** C7, amended. [update] does not validate the values of the map: for an
    untracked name served by the default strategy, a value that is
    neither [null] nor a string is remembered and handed to
    [setAttribute], where it is stringified, and [update] returns. *)
Theorem C7_no_input_validation (e : element) (tr : list event) (k : string)
  (v : jsval) :
  proto (makeAttributeHandler e k v) = AttributeHandler ->
  is_string_or_null v = false ->
  update [(k, v)] (mkState e [] tr)
  = (Return tt,
     mkState (apply_call (setAttribute k v) e)
       [(k, new AttributeHandler k v)]
       (tr ++ [Invoke k VNull v; Call (setAttribute k v)]))
  /\ lookup String.eqb k (attributes (apply_call (setAttribute k v) e))
     = Some (ToString v).
Proof.
  intros Hp Hv.
  assert (makeAttributeHandler e k v = new AttributeHandler k v) as Hmk.
  { revert Hp. unfold makeAttributeHandler.
    repeat match goal with |- context [if ?b then _ else _] => destruct b end;
      simpl; intros Hp; try discriminate. reflexivity. }
  split.
  - run_update.
    assert (strict_neq v VNull = true) as ->.
    { apply strict_neq_true. intros ->. discriminate. }
    assert (strict_eq v VNull = false) as Hnn.
    { apply strict_eq_false. intros ->. discriminate. }
    unfold changed. rewrite invoke_eq, Hmk. run_update.
    unfold handler_update, AttributeHandler_update. cbn [proto name].
    rewrite Hnn. unfold dom. run_update.
    rewrite <- app_assoc. reflexivity.
  - simpl. apply lookup_assign_eq.
Qed.

Lemma C7_no_input_validation_witness :
  update [("id", VObj 0)] (mkState div [] [])
  = (Return tt,
     mkState (apply_call (setAttribute "id" (VObj 0)) div)
       [("id", new AttributeHandler "id" (VObj 0))]
       ([] ++ [Invoke "id" VNull (VObj 0); Call (setAttribute "id" (VObj 0))])).
Proof.
  apply (C7_no_input_validation div [] "id" (VObj 0) eq_refl eq_refl).
Defined.

(** C8. Fail-fast on missing accessors: a class-token handler whose
    [getCurrentValue] or [setValue] is not defined throws "Missing
    methods in subclass of 'BaseClassHandler'" at any invocation of its
    [update], the first included, before anything is read or written;
    [update] of the updater lets the error through, having made no call on
    the element.  [ClassHandler] and [SVGClassHandler], which define both,
    never throw this error. *)
Theorem C8_missing_accessors_fail_fast :
  (forall (g : option (element -> jsval)) (w : option (string -> M unit))
          (oldValue v : jsval) (s : state),
      g = None \/ w = None ->
      BaseClassHandler_update g w oldValue v s = (Throw missingMethods, s))
  /\ (forall (this : handler) (oldValue v : jsval) (s : state),
         proto this = BaseClassHandler ->
         handler_update this oldValue v s = (Throw missingMethods, s))
  /\ (forall (e : element) (tr : list event) (k : string) (hv v : jsval),
         hv <> v ->
         update [(k, v)] (mkState e [(k, new BaseClassHandler k hv)] tr)
         = (Throw missingMethods,
            mkState e [(k, new BaseClassHandler k v)]
              (tr ++ [Invoke k hv v])))
  /\ (forall (this : handler) (oldValue v : jsval) (s : state),
         proto this = ClassHandler \/ proto this = SVGClassHandler ->
         fst (handler_update this oldValue v s) <> Throw missingMethods).
Proof.
  split; [|split; [|split]].
  - intros g w oldValue v s [-> | ->]; [reflexivity|].
    now destruct g.
  - intros this oldValue v s Hp. unfold handler_update. now rewrite Hp.
  - intros e tr k hv v Hne. run_update.
    assert (strict_neq hv v = true) as -> by now apply strict_neq_true.
    unfold changed. rewrite invoke_eq. run_update. reflexivity.
  - intros this oldValue v s Hp. unfold handler_update.
    assert (forall x (st : state),
               (exists l, classesOf x st = (Return l, st))
               \/ classesOf x st = (Throw TypeError, st)) as Hc.
    { intros x st. unfold classesOf.
      destruct (truthy x); [destruct x|]; simpl;
        first [right; reflexivity | left; eexists; reflexivity]. }
    destruct Hp as [-> | ->]; simpl; unfold bind;
      (destruct (Hc oldValue s) as [(oc & ->)| ->]; [|discriminate]);
      (destruct (Hc v s) as [(nc & ->)| ->]; [|discriminate]);
      unfold get_elem.
    + destruct (className (elem s)); simpl; discriminate.
    + destruct (className_baseVal (elem s)); simpl; discriminate.
Qed.

Lemma C8_missing_accessors_fail_fast_witness :
  BaseClassHandler_update None (Some (fun cn => dom (setClassName cn)))
    VNull (VStr "a") (ElementAttributesUpdater div)
  = (Throw missingMethods, ElementAttributesUpdater div).
Proof.
  apply (proj1 C8_missing_accessors_fail_fast). now left.
Defined.

(** C9, as stated, fails: with "id" tracked, [update {title: "t",
    id: null}] sets the attribute "title" before it removes "id". *)
Lemma C9_counterexample :
  exists s',
    update [("title", VStr "t"); ("id", VNull)]
      (mkState div [("id", new AttributeHandler "id" (VStr "a"))] [])
    = (Return tt, s')
    /\ trace s' = [Invoke "title" VNull (VStr "t");
                   Call (setAttribute "title" (VStr "t"));
                   Invoke "id" (VStr "a") VNull;
                   Call (removeAttribute "id")]
    /\ removals_first (trace s') = false.
Proof. eexists. repeat split; reflexivity. Qed.

(** C9, amended. In every call to [update], also one that throws, the
    trace added is: first the removals of the tracked names that are no
    keys of the map, each an invocation with the remembered value and
    [null] followed by its calls; then, for the entries of the map in
    iteration order (all of them when the call returns), nothing or one
    invocation with the entry's value followed by its calls.  A removal
    for a name whose value in the map is [null] is thus made at the place
    of the name in the map, after the additions for the names before it.
    When the call returns, every tracked name that is no key of the map
    had its removal in the first part. *)
Theorem C9_mutation_ordering (newAttrs : list (string * jsval))
  (s s' : state) (r : outcome unit) :
  update newAttrs s = (r, s') ->
  exists segs1 segs2 visited rest,
    trace s' = trace s ++ concat segs1 ++ concat segs2
    /\ Forall (removal_segment s newAttrs) segs1
    /\ newAttrs = visited ++ rest
    /\ Forall2 update_segment visited segs2
    /\ (r = Return tt ->
        rest = []
        /\ forall k h,
            lookup String.eqb k (handlers s) = Some h ->
            ~ In k (keys newAttrs) ->
            invocations_of k (concat segs1) = [Invoke k (value h) VNull]).
Proof.
  intros Hrun. apply update_loops in Hrun.
  destruct Hrun as [(e & Hr & H1)|(ov1 & s1 & r2 & H1 & H2 & Hr)].
  - apply loop1_segments in H1. destruct H1 as (segs1 & Hext & Hsegs).
    exists segs1, [], [], newAttrs. simpl. rewrite app_nil_r.
    repeat split; try assumption; try constructor; subst r; discriminate.
  - pose proof H1 as H1'.
    apply loop1_segments in H1. destruct H1 as (segs1 & Hext1 & Hsegs1).
    apply loop2_segments in H2.
    destruct H2 as (segs2 & visited & rest & Hext2 & Heq & Hall & Hret).
    exists segs1, segs2, visited, rest.
    split; [exact (extends_trans Hext1 Hext2)|].
    split; [assumption|]. split; [assumption|]. split; [assumption|].
    intros ->. destruct r2 as [ov2|e]; [|discriminate].
    split; [now apply (Hret ov2)|].
    intros k h El Hn. apply loop1_return in H1'.
    destruct H1' as (_ & t1 & Hext1' & Hall1).
    rewrite (extends_inj Hext1 Hext1').
    destruct (Hall1 k) as (_ & ->). rewrite El.
    unfold removed_key.
    apply hasOwnProperty_false in Hn. rewrite Hn.
    assert (_arrayContains (keys (handlers s)) k = true) as ->.
    { apply _arrayContains_In. apply lookup_Some_In in El.
      change k with (fst (k, h)). now apply in_map. }
    reflexivity.
Qed.

Lemma C9_mutation_ordering_witness :
  exists segs1 segs2 visited rest,
    [Invoke "title" VNull (VStr "t"); Call (setAttribute "title" (VStr "t"));
     Invoke "id" (VStr "a") VNull; Call (removeAttribute "id")]
    = [] ++ concat segs1 ++ concat segs2
    /\ Forall (removal_segment
                 (mkState div [("id", new AttributeHandler "id" (VStr "a"))] [])
                 [("title", VStr "t"); ("id", VNull)]) segs1
    /\ [("title", VStr "t"); ("id", VNull)] = visited ++ rest
    /\ Forall2 update_segment visited segs2.
Proof.
  destruct (@C9_mutation_ordering
              [("title", VStr "t"); ("id", VNull)]
              (mkState div [("id", new AttributeHandler "id" (VStr "a"))] [])
              _ _ eq_refl)
    as (segs1 & segs2 & visited & rest & H1 & H2 & H3 & H4 & _).
  exists segs1, segs2, visited, rest. repeat split; assumption.
Defined.

(** C10. Handler-table invariant: when [update newAttrs] returns on a
    table whose handlers remember values other than [null], the tracked
    names are exactly the keys of [newAttrs] with a value other than
    [null], each handler remembers the value of its key, a handler that
    was tracked is the same handler with the new value (no strategy is
    selected again), a handler for an untracked name is the one
    [makeAttributeHandler] selects and its one invocation in the call has
    [oldValue = null]; and the handlers again remember values other than
    [null]. *)
Theorem C10_handler_table_invariant (newAttrs : list (string * jsval))
  (s s' : state) :
  NoDup (keys newAttrs) ->
  tracked_nonnull s ->
  update newAttrs s = (Return tt, s') ->
  (forall k, In k (keys (handlers s'))
             <-> exists v, lookup String.eqb k newAttrs = Some v /\ v <> VNull)
  /\ (forall k h, lookup String.eqb k (handlers s') = Some h ->
                  lookup String.eqb k newAttrs = Some (value h))
  /\ (forall k h v,
         lookup String.eqb k (handlers s) = Some h ->
         lookup String.eqb k newAttrs = Some v -> v <> VNull ->
         lookup String.eqb k (handlers s') = Some (set_value h v))
  /\ (forall k v,
         lookup String.eqb k (handlers s) = None ->
         lookup String.eqb k newAttrs = Some v -> v <> VNull ->
         lookup String.eqb k (handlers s')
         = Some (makeAttributeHandler (elem s) k v)
         /\ exists t, trace s' = trace s ++ t
                      /\ invocations_of k t = [Invoke k VNull v])
  /\ tracked_nonnull s'.
Proof.
  intros Hnd Hnn Hrun.
  pose proof (@update_return_holds _ _ _ Hnd Hnn Hrun) as Hholds.
  apply update_return in Hrun; try assumption.
  destruct Hrun as (_ & t1 & t2 & Hext & Hall).
  split; [|split; [|split; [|split]]].
  - intros k. specialize (Hholds k).
    destruct (lookup String.eqb k newAttrs) as [v|].
    + destruct (strict_eq_spec v VNull) as [Hv|Hv].
      * apply lookup_None_keys in Hholds. split; [contradiction|].
        intros (v' & Hv' & Hne). congruence.
      * destruct Hholds as (h & Hh & _). split.
        -- intros _. now exists v.
        -- intros _. apply lookup_Some_In in Hh.
           change k with (fst (k, h)). now apply in_map.
    + apply lookup_None_keys in Hholds. split; [contradiction|].
      intros (v' & Hv' & _). discriminate.
  - intros k h Hh. specialize (Hholds k).
    destruct (lookup String.eqb k newAttrs) as [v|]; [|congruence].
    destruct (strict_eq v VNull); [congruence|].
    destruct Hholds as (h' & Hh' & Hval). congruence.
  - intros k h v Hh HM Hv. destruct (Hall k) as (-> & _).
    now rewrite HM, Hh, (strict_eq_false Hv).
  - intros k v Hh HM Hv. destruct (Hall k) as (-> & Hi1 & Hi2).
    rewrite HM, Hh, (strict_eq_false Hv). split; [reflexivity|].
    exists (t1 ++ t2). split; [exact Hext|].
    rewrite invocations_of_app, Hi1, Hi2. unfold expected_invocations.
    now rewrite HM, Hh, (strict_eq_false Hv).
  - intros k h Hh. specialize (Hholds k).
    destruct (lookup String.eqb k newAttrs) as [v|]; [|congruence].
    destruct (strict_eq_spec v VNull); [congruence|].
    destruct Hholds as (h' & Hh' & Hval). congruence.
Qed.

Lemma C10_handler_table_invariant_witness :
  tracked_nonnull
    (snd (update [("id", VStr "a"); ("class", VStr "foo"); ("disabled", VNull)]
            (ElementAttributesUpdater div))).
Proof.
  apply (@C10_handler_table_invariant
           [("id", VStr "a"); ("class", VStr "foo"); ("disabled", VNull)]
           (ElementAttributesUpdater div) _).
  - repeat constructor; simpl; intuition discriminate.
  - intros k h H. discriminate.
  - reflexivity.
Defined.

(** C6, as stated, fails.  On a plain element, [update {class: "foo"}]
    followed by [update {}] leaves the attribute "class" on the element,
    with the empty string as value: the class handlers write the class
    list back and never remove the attribute.  On an input that gets the
    focus after [update {value: "x"}], [update {}] leaves the live value
    "x": the handler is discarded but its removal is suppressed. *)
Lemma C6_counterexample :
  (exists s1 s2,
      update [("class", VStr "foo")] (ElementAttributesUpdater div)
      = (Return tt, s1)
      /\ update [] s1 = (Return tt, s2)
      /\ attributes div = []
      /\ attributes (elem s2) = [("class", "")])
  /\ (exists s1 s2,
         update [("value", VStr "x")] (ElementAttributesUpdater (input false))
         = (Return tt, s1)
         /\ valueProp (elem s1) = "x"
         /\ update [] (set_isActiveElement true s1) = (Return tt, s2)
         /\ handlers s2 = []
         /\ valueProp (input false) = ""
         /\ valueProp (elem s2) = "x").
Proof.
  split; do 2 eexists; repeat split; reflexivity.
Qed.

(** C6, amended.  After [update newAttrs] has returned for a map of
    strings and [null]s, [update {}] returns and empties the handler
    table, and for every name given a string by [newAttrs] the handler
    was invoked once, with the remembered string and [null], and its
    attribute is cleared in the sense of [cleared]: absent for the
    default and the xlink strategy; for the class strategies no token of
    the remembered value is left in the live token set (the attribute
    itself stays); for the value and the boolean strategy the property is
    reset unless the control is focused. *)
Theorem C6_removal_completeness (newAttrs : list (string * jsval))
  (s s1 : state) :
  wf s ->
  NoDup (keys newAttrs) ->
  (forall k v, In (k, v) newAttrs -> is_string_or_null v = true) ->
  update newAttrs s = (Return tt, s1) ->
  exists s2 t,
    update [] s1 = (Return tt, s2)
    /\ handlers s2 = []
    /\ trace s2 = trace s1 ++ t
    /\ forall k str,
        In (k, VStr str) newAttrs ->
        invocations_of k t = [Invoke k (VStr str) VNull]
        /\ cleared k str (elem s2).
Proof.
  intros Hwf Hnd Hstr Hrun.
  pose proof (@update_wf _ _ _ Hnd Hstr Hwf Hrun) as Hwf1.
  pose proof (@update_return_holds _ _ _ Hnd (wf_tracked_nonnull Hwf) Hrun)
    as Hholds.
  destruct (@loop1_clear (keys (handlers s1)) s1 VUndefined Hwf1)
    as (ov' & s2 & Hloop & _ & _ & Hlk & _ & Hest).
  assert (update [] s1 = (Return tt, s2)) as Hrun2.
  { rewrite update_eq, Hloop. reflexivity. }
  pose proof Hrun2 as Hret.
  apply update_return in Hret;
    [|constructor|now apply wf_tracked_nonnull].
  destruct Hret as (_ & t1 & t2 & Hext & Hall).
  exists s2, (t1 ++ t2). split; [assumption|]. split; [|split; [exact Hext|]].
  - apply lookup_all_None. intros k.
    destruct (Hlk k) as [Hn|(Hnin & Heq)]; [assumption|].
    rewrite Heq. now apply lookup_None_keys.
  - intros k str Hin.
    apply In_lookup_NoDup in Hin; [|assumption]. specialize (Hholds k).
    rewrite Hin in Hholds. simpl in Hholds.
    destruct Hholds as (h & Hh & Hval).
    destruct (Hwf1 _ _ Hh) as (str' & Hmk).
    assert (str' = str) as ->.
    { rewrite Hmk, value_makeAttributeHandler in Hval. congruence. }
    subst h. split.
    + destruct (Hall k) as (_ & Hi1 & Hi2).
      rewrite invocations_of_app, Hi1, Hi2, Hh.
      unfold expected_invocations. simpl.
      now rewrite value_makeAttributeHandler.
    + apply Hest; [assumption|].
      apply lookup_Some_In in Hh.
      change k with (fst (k, makeAttributeHandler (elem s1) k (VStr str))).
      now apply in_map.
Qed.

Lemma C6_removal_completeness_witness :
  exists s2 t,
    update [] (snd (update [("id", VStr "a"); ("class", VStr "foo")]
                      (ElementAttributesUpdater div)))
    = (Return tt, s2)
    /\ handlers s2 = []
    /\ trace s2
       = trace (snd (update [("id", VStr "a"); ("class", VStr "foo")]
                       (ElementAttributesUpdater div))) ++ t
    /\ forall k str,
        In (k, VStr str) [("id", VStr "a"); ("class", VStr "foo")] ->
        invocations_of k t = [Invoke k (VStr str) VNull]
        /\ cleared k str (elem s2).
Proof.
  apply (@C6_removal_completeness
           [("id", VStr "a"); ("class", VStr "foo")]
           (ElementAttributesUpdater div)).
  - intros k h H. discriminate.
  - repeat constructor; simpl; intuition discriminate.
  - intros k v [H|[H|[]]]; injection H as <- <-; reflexivity.
  - reflexivity.
Defined.

(** * Further properties of the code *)

(** ** Class tokens *)

(** X1. What the class handlers write is read back as written: [join]
    followed by [split] and [_arrayCompact] gives the tokens again, and
    normalising a class string twice is the same as once. *)
Theorem classString_roundtrip :
  (forall l, Forall (fun w => isToken w = true) l -> tokens (join l) = l)
  /\ (forall s, tokens (join (tokens s)) = tokens s).
Proof.
  split.
  - exact tokens_join.
  - intros s. apply tokens_join, tokens_Forall_isToken.
Qed.

Lemma classString_roundtrip_witness : tokens (join ["a"; "b"]) = ["a"; "b"].
Proof.
  apply (proj1 classString_roundtrip). repeat constructor.
Defined.

Lemma diffClasses_In (oldClasses newClasses live : list string) (t : string) :
  In t (diffClasses oldClasses newClasses live)
  <-> (In t live /\ (In t oldClasses -> In t newClasses))
      \/ (In t newClasses /\ ~ In t oldClasses).
Proof.
  unfold diffClasses.
  destruct (addNew_app oldClasses newClasses
              (removeOld oldClasses newClasses live))
    as (added & -> & _ & Hin).
  rewrite in_app_iff, Hin, removeOld_In.
  destruct (in_dec string_dec t live), (in_dec string_dec t oldClasses),
    (in_dec string_dec t newClasses); tauto.
Qed.

Lemma NoDup_filter {A} (p : A -> bool) (l : list A) :
  NoDup l -> NoDup (filter p l).
Proof.
  induction 1 as [|a l Hn Hnd IH]; simpl; [constructor|].
  destruct (p a); [|assumption].
  constructor; [|assumption]. rewrite filter_In. tauto.
Qed.

Lemma NoDup_app_disjoint {A} (l1 l2 : list A) :
  NoDup l1 -> NoDup l2 -> (forall x, In x l2 -> ~ In x l1) -> NoDup (l1 ++ l2).
Proof.
  induction 1 as [|a l Hn Hnd IH]; intros H2 Hdis; simpl; [assumption|].
  constructor.
  - rewrite in_app_iff. intros [H|H]; [contradiction|].
    apply (Hdis _ H). now left.
  - apply IH; [assumption|]. intros x Hx Hin. apply (Hdis _ Hx). now right.
Qed.

Lemma diffClasses_NoDup (oldClasses newClasses live : list string) :
  NoDup live -> NoDup (diffClasses oldClasses newClasses live).
Proof.
  intros Hnd. unfold diffClasses.
  destruct (addNew_app oldClasses newClasses
              (removeOld oldClasses newClasses live))
    as (added & -> & Hadded & Hin).
  apply NoDup_app_disjoint; [|assumption|].
  - rewrite removeOld_filter. now apply NoDup_filter.
  - intros x Hx. now apply Hin in Hx.
Qed.

(** X2. The class handler selected for an element, on strings and
    [null]: it returns after one write of the class list, and a token is
    live afterwards exactly when it was live and is not an old token
    dropped from the new value, or when it is a new token that was not an
    old one.  So a token that is both old and new and was taken off the
    element from outside is not put back. *)
Theorem classHandler_membership (e : element) (hv oldValue v : jsval)
  (s : state) :
  elem s = e ->
  is_string_or_null oldValue = true ->
  is_string_or_null v = true ->
  exists c,
    handler_update (makeAttributeHandler e "class" hv) oldValue v s
    = (Return tt, after c s)
    /\ forall t,
        In t (classList (apply_call c e))
        <-> (In t (classList e)
             /\ (In t (tokensOf oldValue) -> In t (tokensOf v)))
            \/ (In t (tokensOf v) /\ ~ In t (tokensOf oldValue)).
Proof.
  intros He Ho Hv.
  destruct (@class_handler_run e hv oldValue v s He Ho Hv)
    as (c & Hrun & Hcl & _).
  exists c. split; [assumption|]. intros t. rewrite Hcl.
  apply diffClasses_In.
Qed.

Lemma classHandler_membership_witness :
  exists c,
    handler_update (makeAttributeHandler (withClass div "a b") "class" VNull)
      (VStr "a") (VStr "c") (ElementAttributesUpdater (withClass div "a b"))
    = (Return tt, after c (ElementAttributesUpdater (withClass div "a b")))
    /\ forall t,
        In t (classList (apply_call c (withClass div "a b")))
        <-> (In t (classList (withClass div "a b"))
             /\ (In t (tokensOf (VStr "a")) -> In t (tokensOf (VStr "c"))))
            \/ (In t (tokensOf (VStr "c")) /\ ~ In t (tokensOf (VStr "a"))).
Proof.
  apply (@classHandler_membership (withClass div "a b") VNull (VStr "a")
           (VStr "c") (ElementAttributesUpdater (withClass div "a b")));
    reflexivity.
Defined.

(** X3. The class handlers never introduce a duplicate: when the live
    tokens are pairwise distinct, so are the tokens after the update. *)
Theorem classHandler_NoDup (e : element) (hv oldValue v : jsval) (s : state) :
  elem s = e ->
  is_string_or_null oldValue = true ->
  is_string_or_null v = true ->
  NoDup (classList e) ->
  exists c,
    handler_update (makeAttributeHandler e "class" hv) oldValue v s
    = (Return tt, after c s)
    /\ NoDup (classList (apply_call c e)).
Proof.
  intros He Ho Hv Hnd.
  destruct (@class_handler_run e hv oldValue v s He Ho Hv)
    as (c & Hrun & Hcl & _).
  exists c. split; [assumption|]. rewrite Hcl. now apply diffClasses_NoDup.
Qed.

Lemma classHandler_NoDup_witness :
  exists c,
    handler_update (makeAttributeHandler (withClass div "a b") "class" VNull)
      (VStr "a") (VStr "b c") (ElementAttributesUpdater (withClass div "a b"))
    = (Return tt, after c (ElementAttributesUpdater (withClass div "a b")))
    /\ NoDup (classList (apply_call c (withClass div "a b"))).
Proof.
  apply (@classHandler_NoDup (withClass div "a b") VNull (VStr "a")
           (VStr "b c") (ElementAttributesUpdater (withClass div "a b")));
    try reflexivity.
  repeat constructor; simpl; intuition discriminate.
Defined.

(** X4. The two class handlers are not interchangeable: [ClassHandler] on
    an SVG element and [SVGClassHandler] on an HTML element throw a
    TypeError when they split the current value, before any write. *)
Theorem classHandler_mismatch (this : handler) (oldValue v : jsval)
  (s : state) :
  is_string_or_null oldValue = true ->
  is_string_or_null v = true ->
  (proto this = ClassHandler /\ ownerSVGElement (elem s) = true)
  \/ (proto this = SVGClassHandler /\ ownerSVGElement (elem s) = false) ->
  handler_update this oldValue v s = (Throw TypeError, s).
Proof.
  intros Ho Hv Hcase. unfold handler_update.
  destruct Hcase as [(-> & Hsvg)|(-> & Hsvg)]; simpl; unfold bind;
    rewrite (classesOf_tokensOf _ _ Ho), (classesOf_tokensOf _ _ Hv);
    unfold get_elem, className, className_baseVal; rewrite Hsvg; reflexivity.
Qed.

Lemma classHandler_mismatch_witness :
  handler_update (new SVGClassHandler "class" (VStr "a")) VNull (VStr "a")
    (ElementAttributesUpdater div)
  = (Throw TypeError, ElementAttributesUpdater div).
Proof.
  apply classHandler_mismatch; try reflexivity. right. now split.
Defined.

(** ** The default, boolean and xlink handlers *)


(** X6. [BooleanHandler.update] on an element that is neither an INPUT
    nor an OPTION throws "Expected INPUT or OPTION element" for every
    pair of values, before any write. *)
Theorem BooleanHandler_wrong_element (this : handler) (oldValue v : jsval)
  (s : state) :
  tagName (elem s) <> "INPUT" ->
  tagName (elem s) <> "OPTION" ->
  BooleanHandler_update this oldValue v s = (Throw expectedInputOrOption, s).
Proof.
  intros Hi Ho.
  unfold BooleanHandler_update, BooleanHandler_focused, bind, get_elem.
  destruct (String.eqb_spec (tagName (elem s)) "INPUT"); [contradiction|].
  destruct (String.eqb_spec (tagName (elem s)) "OPTION"); [contradiction|].
  reflexivity.
Qed.

Lemma BooleanHandler_wrong_element_witness :
  BooleanHandler_update (new BooleanHandler "checked" VNull) VNull (VStr "")
    (ElementAttributesUpdater div)
  = (Throw expectedInputOrOption, ElementAttributesUpdater div).
Proof.
  apply BooleanHandler_wrong_element; discriminate.
Defined.

(** X7. [BooleanHandler.update] on an INPUT or OPTION returns.  While the
    control is focused (the INPUT itself, or for an OPTION the nearest
    SELECT among its ancestors, whatever the OPTION itself is) nothing is
    changed.  Otherwise the property named by the handler becomes [true]
    for a value other than [null] and [undefined], [false] for such a
    value after a remembered one, and is left alone when both are [null]
    or [undefined]; no other property is touched. *)
Theorem BooleanHandler_update_post (this : handler) (oldValue v : jsval)
  (s : state) :
  tagName (elem s) = "INPUT" \/ tagName (elem s) = "OPTION" ->
  exists s',
    BooleanHandler_update this oldValue v s = (Return tt, s')
    /\ (focusedControl (elem s) = true -> s' = s)
    /\ (focusedControl (elem s) = false ->
        (loose_eq_null v = false ->
         lookup String.eqb (name this) (properties (elem s')) = Some true)
        /\ (loose_eq_null v = true -> loose_eq_null oldValue = false ->
            lookup String.eqb (name this) (properties (elem s')) = Some false)
        /\ (loose_eq_null v = true -> loose_eq_null oldValue = true -> s' = s)
        /\ (forall k, k <> name this ->
              lookup String.eqb k (properties (elem s'))
              = lookup String.eqb k (properties (elem s))))
    /\ (tagName (elem s) = "OPTION" ->
        focusedControl (elem s)
        = match find (fun p => String.eqb (fst p) "SELECT")
                  (parentNodes (elem s)) with
          | Some selectEl => snd selectEl
          | None => false
          end).
Proof.
  intros Htag. unfold BooleanHandler_update, bind.
  rewrite BooleanHandler_focused_run by tauto.
  assert (tagName (elem s) = "OPTION" ->
          focusedControl (elem s)
          = match find (fun p => String.eqb (fst p) "SELECT")
                    (parentNodes (elem s)) with
            | Some selectEl => snd selectEl
            | None => false
            end) as Hopt.
  { intros Ht. unfold focusedControl. now rewrite Ht. }
  destruct (focusedControl (elem s)) eqn:Hf; simpl.
  - exists s. repeat split; intros; try congruence; now apply Hopt.
  - destruct (loose_eq_null v) eqn:Hv;
      [destruct (loose_eq_null oldValue) eqn:Ho|];
      eexists; (split; [reflexivity|]); simpl;
      repeat split; intros; try congruence;
      try apply lookup_assign_eq;
      try (now apply lookup_assign_neq);
      now apply Hopt.
Qed.

Lemma BooleanHandler_update_post_witness :
  exists s',
    BooleanHandler_update (new BooleanHandler "checked" VNull) VNull (VStr "")
      (ElementAttributesUpdater (input false))
    = (Return tt, s')
    /\ lookup String.eqb "checked" (properties (elem s')) = Some true.
Proof.
  destruct (@BooleanHandler_update_post (new BooleanHandler "checked" VNull)
              VNull (VStr "") (ElementAttributesUpdater (input false))
              (or_introl eq_refl))
    as (s' & Hrun & _ & Hpost & _).
  exists s'. split; [exact Hrun|].
  exact (proj1 (Hpost eq_refl) eq_refl).
Defined.

Lemma substring_full (s : string) : substring 0 (String.length s) s = s.
Proof. induction s as [|c s IH]; simpl; [reflexivity|now rewrite IH]. Qed.

Lemma xlink_prefix (k : string) :
  substring 0 6 k = "xlink:" ->
  k = ("xlink:" ++ substring 6 (String.length k - 6) k)%string.
Proof.
  destruct k as [|c1 [|c2 [|c3 [|c4 [|c5 [|c6 r]]]]]]; simpl;
    try discriminate.
  intros H. injection H as -> -> -> -> -> -> _.
  rewrite Nat.sub_0_r, substring_full. reflexivity.
Qed.

(** X8. What [makeAttributeHandler] makes: the handler remembers the
    given value; a class handler is made exactly for the name "class",
    the SVG one exactly on SVG elements, and never the abstract
    [BaseClassHandler]; the handler carries the attribute name, except
    that an xlink handler carries the name without its "xlink:" prefix;
    a boolean handler is only made for an element its focus test
    accepts. *)
Theorem makeAttributeHandler_post (e : element) (k : string) (v : jsval) :
  let h := makeAttributeHandler e k v in
  value h = v
  /\ proto h <> BaseClassHandler
  /\ (proto h = ClassHandler <-> k = "class" /\ ownerSVGElement e = false)
  /\ (proto h = SVGClassHandler <-> k = "class" /\ ownerSVGElement e = true)
  /\ (proto h = XlinkHandler -> k = ("xlink:" ++ name h)%string)
  /\ (proto h <> XlinkHandler -> name h = k)
  /\ (proto h = BooleanHandler ->
      tagName e = "INPUT" \/ tagName e = "OPTION").
Proof.
  intros h. subst h. split; [apply value_makeAttributeHandler|].
  unfold makeAttributeHandler, isSVGElement.
  destruct (String.eqb_spec k "class") as [Hc|Hc].
  - destruct (ownerSVGElement e); simpl; intuition congruence.
  - destruct ((String.eqb (tagName e) "OPTION" && String.eqb k "selected")
              || (String.eqb (tagName e) "INPUT" && String.eqb k "checked"))
      eqn:Hb.
    + assert (tagName e = "INPUT" \/ tagName e = "OPTION") as Htag.
      { apply orb_prop in Hb.
        destruct Hb as [Hb|Hb]; apply andb_prop in Hb as [Ht _];
          apply String.eqb_eq in Ht; tauto. }
      simpl. intuition congruence.
    + destruct ((String.eqb (tagName e) "TEXTAREA"
                 || String.eqb (tagName e) "INPUT") && String.eqb k "value").
      * simpl. intuition congruence.
      * destruct (String.eqb_spec (substring 0 6 k) "xlink:") as [Hx|Hx].
        -- apply xlink_prefix in Hx. simpl. intuition congruence.
        -- simpl. intuition congruence.
Qed.

(** X9. No call a handler makes on the element changes which handler
    [makeAttributeHandler] selects for a name: the strategy chosen when a
    name is first tracked is the one that would be chosen later. *)
Theorem makeAttributeHandler_stable (c : call) (e : element) (k : string)
  (v : jsval) :
  makeAttributeHandler (apply_call c e) k v = makeAttributeHandler e k v.
Proof. apply makeAttributeHandler_sameNode, apply_call_sameNode. Qed.




(** ** The updater *)

Lemma changed_NoDup (k : string) (h : handler) (o v : jsval) (s s' : state)
  (r : outcome jsval) :
  NoDup (keys (handlers s)) ->
  changed k h o v s = (r, s') ->
  NoDup (keys (handlers s')).
Proof.
  intros Hnd Hch. apply changed_spec in Hch.
  destruct Hch as (calls & _ & _ & _ & [(_ & ->)|(e & _ & ->)]).
  - destruct (strict_eq v VNull).
    + now apply NoDup_keys_delete, NoDup_keys_assign.
    + now apply NoDup_keys_assign.
  - now apply NoDup_keys_assign.
Qed.

Lemma loop1_NoDup (newAttrs : list (string * jsval)) (ks : list string) :
  forall (s s' : state) (ov : jsval) (r : outcome jsval),
    NoDup (keys (handlers s)) ->
    for_in ks (removeStep newAttrs) ov s = (r, s') ->
    NoDup (keys (handlers s')).
Proof.
  induction ks as [|k0 rest IH]; intros s s' ov r Hnd Hrun.
  - rewrite for_in_nil in Hrun. now injection Hrun as <- <-.
  - rewrite for_in_cons in Hrun.
    destruct (removeStep newAttrs k0 ov s) as [r1 s1] eqn:Estep.
    assert (NoDup (keys (handlers s1))) as Hnd1.
    { apply removeStep_cases in Estep.
      destruct Estep as [El Hr Hs|h El Hin Hr Hs|h El Hin Hch];
        try (now subst). eapply changed_NoDup; eassumption. }
    destruct r1 as [ov1|e]; [now apply IH in Hrun|].
    now injection Hrun as <- <-.
Qed.

Lemma loop2_NoDup (newAttrs : list (string * jsval)) :
  forall (s s' : state) (ov : jsval) (r : outcome jsval),
    NoDup (keys (handlers s)) ->
    for_in newAttrs updateStep ov s = (r, s') ->
    NoDup (keys (handlers s')).
Proof.
  induction newAttrs as [|[k0 v0] rest IH]; intros s s' ov r Hnd Hrun.
  - rewrite for_in_nil in Hrun. now injection Hrun as <- <-.
  - rewrite for_in_cons in Hrun.
    destruct (updateStep (k0, v0) ov s) as [r1 s1] eqn:Estep.
    assert (NoDup (keys (handlers s1))) as Hnd1.
    { apply updateStep_cases in Estep.
      destruct Estep as [h El Hv Hr Hs|El Hv Ho Hr Hs|El Hv Ho Hr Hs
                        |h El Hv Hch|El Hv Hch];
        try (now subst); eapply changed_NoDup; eassumption. }
    destruct r1 as [ov1|e]; [now apply IH in Hrun|].
    now injection Hrun as <- <-.
Qed.

Lemma update_NoDup (newAttrs : list (string * jsval)) (s s' : state)
  (r : outcome unit) :
  NoDup (keys (handlers s)) ->
  update newAttrs s = (r, s') ->
  NoDup (keys (handlers s')).
Proof.
  intros Hnd Hrun. apply update_loops in Hrun.
  destruct Hrun as [(e & _ & H1)|(ov1 & s1 & r2 & H1 & H2 & _)].
  - eapply loop1_NoDup; eassumption.
  - eapply loop2_NoDup; [|eassumption]. eapply loop1_NoDup; eassumption.
Qed.

(** X11. An invariant of the updater: in every state reached from a fresh
    updater by calls to [update] with maps of strings and [null]s,
    returning or not, and by changes made to the element from outside,
    the table has one entry per name, each the handler
    [makeAttributeHandler] selects for that name on the element, and each
    remembers a string. *)
Theorem reachable_invariant (s : state) :
  reachable s ->
  NoDup (keys (handlers s))
  /\ forall k h,
      lookup String.eqb k (handlers s) = Some h ->
      exists str, h = makeAttributeHandler (elem s) k (VStr str).
Proof.
  intros Hr. split; [|now apply reachable_wf].
  induction Hr as [e|s s' newAttrs r _ IH Hstr Hrun|s e' _ IH Htag Hsvg].
  - constructor.
  - eapply update_NoDup; eassumption.
  - exact IH.
Qed.

Lemma reachable_invariant_witness :
  NoDup (keys (handlers (snd (update [("id", VStr "a")]
                                (ElementAttributesUpdater div))))).
Proof.
  apply (@reachable_invariant
           (snd (update [("id", VStr "a")] (ElementAttributesUpdater div)))).
  apply (@R_update (ElementAttributesUpdater div) _ [("id", VStr "a")]
           (fst (update [("id", VStr "a")] (ElementAttributesUpdater div)))).
  - apply R_fresh.
  - intros k v [H|[]]. now injection H as <- <-.
  - reflexivity.
Defined.







(** X14. Calling [update] again with the map of a call that returned
    changes nothing, neither the element nor the table nor the trace; the
    second call returns when no value of the map is [null] and throws a
    TypeError when one is. *)
Theorem update_repeated (newAttrs : list (string * jsval)) (s s1 : state) :
  NoDup (keys newAttrs) ->
  tracked_nonnull s ->
  update newAttrs s = (Return tt, s1) ->
  update newAttrs s1
  = (if noNull newAttrs then Return tt else Throw TypeError, s1).
Proof. apply update_twice. Qed.

Lemma update_repeated_witness :
  update [("id", VStr "a"); ("class", VStr "foo")]
    (snd (update [("id", VStr "a"); ("class", VStr "foo")]
            (ElementAttributesUpdater div)))
  = (Return tt,
     snd (update [("id", VStr "a"); ("class", VStr "foo")]
            (ElementAttributesUpdater div))).
Proof.
  apply (@update_repeated [("id", VStr "a"); ("class", VStr "foo")]
           (ElementAttributesUpdater div)).
  - repeat constructor; simpl; intuition discriminate.
  - intros k h H. discriminate.
  - reflexivity.
Defined.

(** X15. The handlers a returning call invokes are exactly those whose
    value changes, each once and with the remembered and the new value: a
    tracked name that is no key of the map is invoked with its value and
    [null]; a tracked key, with its value and the map's unless they are
    equal; an untracked key, with [null] and the map's value unless that
    is [null]; no other name is invoked. *)
Theorem update_invocations (newAttrs : list (string * jsval)) (s s' : state) :
  NoDup (keys newAttrs) ->
  tracked_nonnull s ->
  update newAttrs s = (Return tt, s') ->
  exists t,
    trace s' = trace s ++ t
    /\ forall k,
        invocations_of k t
        = match lookup String.eqb k (handlers s),
                lookup String.eqb k newAttrs with
          | Some h, None => [Invoke k (value h) VNull]
          | Some h, Some v =>
              if strict_eq (value h) v then [] else [Invoke k (value h) v]
          | None, Some v =>
              if strict_eq v VNull then [] else [Invoke k VNull v]
          | None, None => []
          end.
Proof.
  intros Hnd Hnn Hrun. apply update_return in Hrun; try assumption.
  destruct Hrun as (_ & t1 & t2 & Hext & Hall).
  exists (t1 ++ t2). split; [exact Hext|]. intros k.
  destruct (Hall k) as (_ & Hi1 & Hi2).
  rewrite invocations_of_app, Hi1, Hi2. unfold expected_invocations.
  destruct (lookup String.eqb k (handlers s)) as [h|],
    (lookup String.eqb k newAttrs) as [v|]; try reflexivity.
Qed.

Lemma update_invocations_witness :
  exists t,
    trace (snd (update [("id", VStr "a")] (ElementAttributesUpdater div)))
    = trace (ElementAttributesUpdater div) ++ t
    /\ invocations_of "id" t = [Invoke "id" VNull (VStr "a")].
Proof.
  destruct (@update_invocations [("id", VStr "a")]
              (ElementAttributesUpdater div)
              (snd (update [("id", VStr "a")] (ElementAttributesUpdater div))))
    as (t & Ht & Hall).
  - repeat constructor; simpl; intuition discriminate.
  - intros k h H. discriminate.
  - reflexivity.
  - exists t. split; [exact Ht|]. exact (Hall "id").
Defined.

Lemma counts_app (t1 t2 : list event) :
  invokeCount (t1 ++ t2) = invokeCount t1 + invokeCount t2
  /\ callCount (t1 ++ t2) = callCount t1 + callCount t2.
Proof.
  unfold invokeCount, callCount. now rewrite !filter_app, !length_app.
Qed.

Lemma counts_segment (k : string) (o v : jsval) (calls : list call) :
  invokeCount (Invoke k o v :: map Call calls) = 1
  /\ callCount (Invoke k o v :: map Call calls) = length calls.
Proof.
  unfold invokeCount, callCount. simpl.
  induction calls as [|c calls [IH1 IH2]]; simpl; [now split|].
  split; [assumption|now f_equal].
Qed.

Lemma changed_counts (k : string) (h : handler) (o v : jsval) (s s' : state)
  (r : outcome jsval) :
  changed k h o v s = (r, s') ->
  exists t, extends s s' t /\ callCount t <= invokeCount t /\ invokeCount t <= 1.
Proof.
  intros Hch. apply changed_frame in Hch.
  destruct Hch as (_ & _ & _ & calls & Hlen & _ & Hext & _).
  eexists. split; [exact Hext|].
  destruct (counts_segment k o v calls) as (-> & ->). lia.
Qed.

Lemma loop1_counts (newAttrs : list (string * jsval)) (ks : list string) :
  forall (s s' : state) (ov : jsval) (r : outcome jsval),
    for_in ks (removeStep newAttrs) ov s = (r, s') ->
    exists t, extends s s' t
              /\ callCount t <= invokeCount t /\ invokeCount t <= length ks.
Proof.
  induction ks as [|k0 rest IH]; intros s s' ov r Hrun.
  - rewrite for_in_nil in Hrun. injection Hrun as <- <-.
    exists []. split; [apply extends_refl|]. simpl. split; constructor.
  - rewrite for_in_cons in Hrun.
    destruct (removeStep newAttrs k0 ov s) as [r1 s1] eqn:Estep.
    assert (exists t, extends s s1 t
                      /\ callCount t <= invokeCount t /\ invokeCount t <= 1)
      as (t1 & Hext1 & Hc1 & Hi1).
    { apply removeStep_cases in Estep.
      destruct Estep as [El Hr Hs|h El Hin Hr Hs|h El Hin Hch];
        try (subst s1; exists []; split; [apply extends_refl|];
             simpl; split; repeat constructor).
      eapply changed_counts; eassumption. }
    destruct r1 as [ov1|e].
    + destruct (IH _ _ _ _ Hrun) as (t2 & Hext2 & Hc2 & Hi2).
      exists (t1 ++ t2). split; [exact (extends_trans Hext1 Hext2)|].
      destruct (counts_app t1 t2) as (-> & ->). simpl. lia.
    + injection Hrun as <- <-. exists t1. split; [assumption|]. simpl. lia.
Qed.

Lemma loop2_counts (newAttrs : list (string * jsval)) :
  forall (s s' : state) (ov : jsval) (r : outcome jsval),
    for_in newAttrs updateStep ov s = (r, s') ->
    exists t, extends s s' t
              /\ callCount t <= invokeCount t
              /\ invokeCount t <= length newAttrs.
Proof.
  induction newAttrs as [|[k0 v0] rest IH]; intros s s' ov r Hrun.
  - rewrite for_in_nil in Hrun. injection Hrun as <- <-.
    exists []. split; [apply extends_refl|]. simpl. split; constructor.
  - rewrite for_in_cons in Hrun.
    destruct (updateStep (k0, v0) ov s) as [r1 s1] eqn:Estep.
    assert (exists t, extends s s1 t
                      /\ callCount t <= invokeCount t /\ invokeCount t <= 1)
      as (t1 & Hext1 & Hc1 & Hi1).
    { apply updateStep_cases in Estep.
      destruct Estep as [h El Hv Hr Hs|El Hv Ho Hr Hs|El Hv Ho Hr Hs
                        |h El Hv Hch|El Hv Hch];
        try (subst s1; exists []; split; [apply extends_refl|];
             simpl; split; repeat constructor);
        eapply changed_counts; eassumption. }
    destruct r1 as [ov1|e].
    + destruct (IH _ _ _ _ Hrun) as (t2 & Hext2 & Hc2 & Hi2).
      exists (t1 ++ t2). split; [exact (extends_trans Hext1 Hext2)|].
      destruct (counts_app t1 t2) as (-> & ->). simpl. lia.
    + injection Hrun as <- <-. exists t1. split; [assumption|]. simpl. lia.
Qed.

(** X16. The cost of a call to [update], whatever its outcome: every call
    on the element is made by an invoked handler and a handler makes at
    most one, and no more handlers are invoked than there are tracked
    names and entries of the map together. *)
Theorem update_cost (newAttrs : list (string * jsval)) (s : state) :
  exists t,
    trace (snd (update newAttrs s)) = trace s ++ t
    /\ callCount t <= invokeCount t
    /\ invokeCount t <= length (handlers s) + length newAttrs.
Proof.
  destruct (update newAttrs s) as [r s'] eqn:Hrun. simpl.
  apply update_loops in Hrun.
  destruct Hrun as [(e & _ & H1)|(ov1 & s1 & r2 & H1 & H2 & _)].
  - apply loop1_counts in H1. destruct H1 as (t & Hext & Hc & Hi).
    exists t. split; [exact Hext|]. unfold keys in Hi.
    rewrite length_map in Hi. lia.
  - apply loop1_counts in H1. destruct H1 as (t1 & Hext1 & Hc1 & Hi1).
    apply loop2_counts in H2. destruct H2 as (t2 & Hext2 & Hc2 & Hi2).
    exists (t1 ++ t2). split; [exact (extends_trans Hext1 Hext2)|].
    destruct (counts_app t1 t2) as (-> & ->).
    unfold keys in Hi1. rewrite length_map in Hi1. lia.
Qed.

(** ** Attributes the updater does not own *)











(** ** The array helpers *)

(** X18. [_arrayWithout] removes every occurrence of the item and
    nothing else, keeping the order, so that afterwards [_arrayContains]
    answers [false] for the item and as before for any other one; and
    [_arrayCompact] leaves an array without empty strings as it is. *)
Theorem arrayHelpers (array : list string) (item : string) :
  (forall x, _arrayContains (_arrayWithout array item) x
             = _arrayContains array x && negb (String.eqb x item))
  /\ _arrayWithout (_arrayWithout array item) item = _arrayWithout array item
  /\ (_arrayContains array item = false -> _arrayWithout array item = array)
  /\ _arrayCompact (_arrayCompact array) = _arrayCompact array
  /\ _arrayContains (_arrayCompact array) "" = false.
Proof.
  split; [|split; [|split; [|split]]].
  - intros x. induction array as [|a l IH]; simpl; [reflexivity|].
    destruct (String.eqb_spec a item) as [->|Hne]; simpl.
    + rewrite IH. destruct (String.eqb_spec item x) as [->|Hx]; simpl.
      * rewrite String.eqb_refl. simpl. now rewrite andb_false_r.
      * reflexivity.
    + rewrite IH. destruct (String.eqb_spec a x) as [->|Hx]; simpl.
      * destruct (String.eqb_spec x item); [contradiction|reflexivity].
      * reflexivity.
  - unfold _arrayWithout. rewrite filter_filter. apply filter_ext.
    intros x. now rewrite andb_diag.
  - intros Hc. induction array as [|a l IH]; simpl in *; [reflexivity|].
    apply orb_false_elim in Hc as [Ha Hl]. rewrite Ha. simpl.
    f_equal. now apply IH.
  - unfold _arrayCompact. rewrite filter_filter. apply filter_ext.
    intros x. now rewrite andb_diag.
  - apply _arrayContains_false. unfold _arrayCompact. rewrite filter_In.
    intros (_ & H). discriminate.
Qed.

Lemma arrayHelpers_witness : _arrayWithout ["a"; "b"] "c" = ["a"; "b"].
Proof.
  apply (proj1 (proj2 (proj2 (arrayHelpers ["a"; "b"] "c")))). reflexivity.
Defined.

(** ** Prototypes: [_assign] and [extend] *)

Lemma enumerate_seen {V} (chain : list (list (string * V)))
  (seen : list string) (k : string) :
  In k (enumerate seen chain) -> ~ In k seen.
Proof.
  revert seen. induction chain as [|d ps IH]; intros seen; simpl; [tauto|].
  rewrite in_app_iff, filter_In. intros [(_ & Hn)|Hin].
  - apply negb_true_iff, _arrayContains_false in Hn. exact Hn.
  - apply IH in Hin. intros Hs. apply Hin, in_or_app. now left.
Qed.

Lemma forInKeys_own {V} (o : object V) :
  exists more,
    forInKeys o = keys (own o) ++ more
    /\ forall k, In k more -> ~ In k (keys (own o)).
Proof.
  unfold forInKeys. cbn [enumerate].
  assert (forall l : list string,
             filter (fun k => negb (_arrayContains [] k)) l = l) as Hall.
  { induction l as [|a l IH]; simpl; [reflexivity|now f_equal]. }
  rewrite Hall. eexists. split; [reflexivity|].
  intros k Hin. now apply enumerate_seen in Hin.
Qed.

Lemma assign_fold_skip {V} (src tgt : object V) (more : list string) :
  (forall k, In k more -> ~ In k (keys (own src))) ->
  fold_left
    (fun tgt k =>
       if hasOwnProperty String.eqb (own src) k then
         match get src k with
         | Some v => setOwn tgt k v
         | None => tgt
         end
       else tgt) more tgt = tgt.
Proof.
  induction more as [|k more IH]; intros Hn; simpl; [reflexivity|].
  assert (hasOwnProperty String.eqb (own src) k = false) as ->.
  { apply hasOwnProperty_false. apply Hn. now left. }
  apply IH. intros k' Hin. apply Hn. now right.
Qed.

Lemma assign_fold_own {V} (src : object V) (ks : list string) :
  forall (tgt : object V),
    (forall k, In k ks -> In k (keys (own src))) ->
    let res :=
      fold_left
        (fun tgt k =>
           if hasOwnProperty String.eqb (own src) k then
             match get src k with
             | Some v => setOwn tgt k v
             | None => tgt
             end
           else tgt) ks tgt in
    inherited res = inherited tgt
    /\ forall k,
        lookup String.eqb k (own res)
        = if _arrayContains ks k then lookup String.eqb k (own src)
          else lookup String.eqb k (own tgt).
Proof.
  induction ks as [|k0 ks IH]; intros tgt Hin; simpl.
  - now split.
  - assert (exists v, lookup String.eqb k0 (own src) = Some v) as (v & Hv).
    { specialize (Hin k0 (or_introl eq_refl)).
      apply hasOwnProperty_true in Hin. unfold hasOwnProperty in Hin.
      destruct (lookup String.eqb k0 (own src)) as [v|]; [|discriminate].
      now exists v. }
    rewrite hasOwnProperty_lookup, Hv. unfold get. simpl getChain. rewrite Hv.
    destruct (IH (setOwn tgt k0 v)) as (Hinh & Hlk).
    { intros k Hk. apply Hin. now right. }
    split; [exact Hinh|]. intros k. rewrite Hlk. simpl.
    destruct (_arrayContains ks k) eqn:Hc.
    + now rewrite orb_true_r.
    + rewrite orb_false_r. destruct (String.eqb_spec k0 k) as [->|Hne].
      * rewrite lookup_assign_eq. now symmetry.
      * apply lookup_assign_neq. congruence.
Qed.

(** X19. [_assign] copies the own properties of the source and only
    those: afterwards an own property of the target is the source's where
    the source has it as an own property and the target's otherwise;
    properties the source inherits are not copied, and the prototypes of
    the target stay as they are. *)
Theorem assign_post {V} (tgt src : object V) :
  inherited (_assign tgt src) = inherited tgt
  /\ forall k,
      lookup String.eqb k (own (_assign tgt src))
      = match lookup String.eqb k (own src) with
        | Some v => Some v
        | None => lookup String.eqb k (own tgt)
        end.
Proof.
  unfold _assign.
  destruct (forInKeys_own src) as (more & -> & Hmore).
  rewrite fold_left_app.
  rewrite (assign_fold_skip src _ more Hmore).
  destruct (@assign_fold_own V src (keys (own src)) tgt) as (Hinh & Hlk);
    [now intros|].
  split; [exact Hinh|]. intros k. rewrite Hlk.
  destruct (lookup String.eqb k (own src)) as [v|] eqn:Hv.
  - assert (_arrayContains (keys (own src)) k = true) as ->; [|reflexivity].
    apply _arrayContains_In. apply lookup_Some_In in Hv.
    change k with (fst (k, v)). now apply in_map.
  - assert (_arrayContains (keys (own src)) k = false) as ->; [|reflexivity].
    apply _arrayContains_false. now apply lookup_None_keys.
Qed.

(** X20. [extend]: a member of the subtype's prototype is the one given
    in [options] when [options] has it as an own property; otherwise
    [name] and [value] are [undefined], because the prototype is made by
    running the constructor without arguments, and this hides a member of
    that name of the parent; every other member is inherited from the
    parent.  Without [options] the same holds with nothing given. *)
Theorem extend_get {V} (undefined : V) (curType : object V)
  (options : option (object V)) (k : string) :
  get (extend undefined curType options) k
  = match match options with
          | Some o => lookup String.eqb k (own o)
          | None => None
          end with
    | Some v => Some v
    | None =>
        if String.eqb k "name" || String.eqb k "value" then Some undefined
        else get curType k
    end.
Proof.
  assert (forall p : object V,
             inherited p = own curType :: inherited curType ->
             (forall k', lookup String.eqb k' (own p)
                         = match match options with
                                 | Some o => lookup String.eqb k' (own o)
                                 | None => None
                                 end with
                           | Some v => Some v
                           | None =>
                               if String.eqb k' "name" || String.eqb k' "value"
                               then Some undefined else None
                           end) ->
             get p k
             = match match options with
                     | Some o => lookup String.eqb k (own o)
                     | None => None
                     end with
               | Some v => Some v
               | None =>
                   if String.eqb k "name" || String.eqb k "value"
                   then Some undefined else get curType k
               end) as Hgen.
  { intros p Hinh Hown. unfold get. simpl. rewrite Hown, Hinh.
    destruct (match options with
              | Some o => lookup String.eqb k (own o)
              | None => None
              end); [reflexivity|].
    destruct (String.eqb k "name" || String.eqb k "value"); reflexivity. }
  apply Hgen.
  - unfold extend. destruct options as [o|]; [|reflexivity].
    now rewrite (proj1 (assign_post _ o)).
  - intros k'.
    assert (lookup String.eqb k' (own (construct curType undefined undefined))
            = if String.eqb k' "name" || String.eqb k' "value"
              then Some undefined else None) as Hc.
    { cbn [construct own lookup].
      rewrite (String.eqb_sym "name" k'), (String.eqb_sym "value" k').
      destruct (String.eqb k' "name"); [reflexivity|].
      now destruct (String.eqb k' "value"). }
    unfold extend. destruct options as [o|]; [|exact Hc].
    rewrite (proj2 (assign_post _ o)), Hc. reflexivity.
Qed.

(** X21. The handler types attrs.js builds with [extend] resolve their
    methods as [handler_update] takes them: looking [update] up on an
    instance, along the prototypes [extend] made, and calling it is
    [handler_update]; and
    [getCurrentValue] and [setValue] resolve to the accessors of
    [ClassHandler] and [SVGClassHandler] and to nothing on every other
    type, [BaseClassHandler] included. *)
Theorem prototype_dispatch (h : handler) :
  (forall oldValue v, callUpdate h oldValue v = handler_update h oldValue v)
  /\ resolveGetCurrentValue (instanceOf h) = getCurrentValue_of (proto h)
  /\ resolveSetValue (instanceOf h) = setValue_of (proto h).
Proof.
  destruct h as [p n hv]. unfold callUpdate, handler_update, instanceOf.
  destruct p; repeat split; reflexivity.
Qed.

(** ** Handlebars *)

(** X22. [registerHelper]: afterwards the helper under the name is the
    function given, every other helper is as before, and registering a
    name again replaces its helper without a second entry. *)
Theorem registerHelper_post {F} (nm : string) (func : F)
  (helpers : list (string * F)) :
  lookup String.eqb nm (registerHelper nm func helpers) = Some func
  /\ (forall k, k <> nm ->
        lookup String.eqb k (registerHelper nm func helpers)
        = lookup String.eqb k helpers)
  /\ (forall g, registerHelper nm g (registerHelper nm func helpers)
                = registerHelper nm g helpers)
  /\ (NoDup (keys helpers) -> NoDup (keys (registerHelper nm func helpers))).
Proof.
  unfold registerHelper. split; [apply lookup_assign_eq|].
  split; [intros k Hk; now apply lookup_assign_neq|].
  split; [intros g; apply assign_assign|apply NoDup_keys_assign].
Qed.

Lemma special_cases (c : ascii) :
  special c = true ->
  c = "&"%char \/ c = "<"%char \/ c = ">"%char \/ c = quote
  \/ c = "'"%char \/ c = "`"%char.
Proof.
  unfold special. simpl. rewrite !orb_true_iff, !Ascii.eqb_eq.
  intuition discriminate.
Qed.

Lemma string_app_assoc (a b c : string) :
  ((a ++ b) ++ c = a ++ (b ++ c))%string.
Proof. induction a as [|x a IH]; simpl; [reflexivity|now rewrite IH]. Qed.

Lemma string_length_app (a b : string) :
  String.length (a ++ b) = String.length a + String.length b.
Proof. induction a as [|x a IH]; simpl; [reflexivity|now rewrite IH]. Qed.

Lemma replace_special_length (x : string) :
  String.length x <= String.length (replace_special x).
Proof.
  induction x as [|c r IH]; simpl; [constructor|].
  destruct (special c) eqn:Hs; simpl; [|lia].
  rewrite string_length_app.
  apply special_cases in Hs.
  destruct Hs as [->|[->|[->|[->|[->| ->]]]]]; simpl; lia.
Qed.

Lemma replace_special_noSpecial (x : string) :
  noSpecial x = true <-> replace_special x = x.
Proof.
  induction x as [|c r IH]; simpl; [tauto|].
  destruct (special c) eqn:Hs; simpl.
  - split; [discriminate|]. intros H. exfalso.
    pose proof (replace_special_length r) as Hlen.
    apply (f_equal String.length) in H.
    rewrite string_length_app in H. simpl in H.
    apply special_cases in Hs.
    destruct Hs as [->|[->|[->|[->|[->| ->]]]]]; simpl in H; lia.
  - rewrite IH. split; [now intros ->|]. intros H. now injection H.
Qed.

(** X23. [_escape] on strings: it maps a concatenation to the
    concatenation of the escaped parts, never shortens, and returns its
    argument unchanged exactly when the argument has none of the six
    characters; on anything but a string it throws a TypeError. *)
Theorem escape_structure :
  (forall x y, _escape (VStr (x ++ y))
               = Return (replace_special x ++ replace_special y)%string)
  /\ (forall x, String.length x <= String.length (replace_special x))
  /\ (forall x, _escape (VStr x) = Return x <-> noSpecial x = true)
  /\ (forall v, (forall x, v <> VStr x) -> _escape v = Throw TypeError).
Proof.
  split; [|split; [|split]].
  - intros x y. simpl. f_equal.
    induction x as [|c r IH]; simpl; [reflexivity|].
    destruct (special c); simpl; [|now rewrite IH].
    now rewrite IH, string_app_assoc.
  - exact replace_special_length.
  - intros x. simpl. rewrite replace_special_noSpecial.
    split; [now intros H; injection H|now intros ->].
  - intros v Hv. destruct v; try reflexivity. now destruct (Hv s).
Qed.

(** X24. The output of [_escape] contains none of the characters
    [<], [>], the double quote, the apostrophe and the backtick. *)
Theorem escape_safe (x : string) (c : ascii) :
  special c = true -> c <> "&"%char ->
  _escape (VStr x) = Return (replace_special x)
  /\ occurs c (replace_special x) = false.
Proof.
  intros Hc Hamp. split; [reflexivity|].
  apply special_cases in Hc.
  induction x as [|a r IH]; simpl; [reflexivity|].
  destruct (special a) eqn:Hs.
  - apply special_cases in Hs.
    destruct Hs as [->|[->|[->|[->|[->| ->]]]]];
      destruct Hc as [->|[->|[->|[->|[->| ->]]]]];
      try contradiction; simpl; exact IH.
  - simpl. rewrite IH, orb_false_r.
    destruct (Ascii.eqb_spec a c) as [->|Hne]; [|reflexivity].
    assert (special c = true) as Hsc; [|congruence].
    destruct Hc as [->|[->|[->|[->|[->| ->]]]]]; reflexivity.
Qed.

Lemma escape_safe_witness :
  occurs "<"%char (replace_special "a<b") = false.
Proof.
  apply (proj2 (@escape_safe "a<b" "<"%char eq_refl ltac:(discriminate))).
Defined.

(** X25. [_escape] loses nothing: two strings with the same escaped form
    are the same string. *)
Theorem escape_injective (x y : string) :
  _escape (VStr x) = _escape (VStr y) -> x = y.
Proof.
  simpl. intros H. injection H as H. revert y H.
  induction x as [|a r IH]; intros [|b r'] H; simpl in H.
  - reflexivity.
  - exfalso. destruct (special b) eqn:Hb; [|discriminate].
    apply special_cases in Hb.
    destruct Hb as [->|[->|[->|[->|[->| ->]]]]]; discriminate.
  - exfalso. destruct (special a) eqn:Ha; [|discriminate].
    apply special_cases in Ha.
    destruct Ha as [->|[->|[->|[->|[->| ->]]]]]; discriminate.
  - destruct (special a) eqn:Ha, (special b) eqn:Hb.
    + apply special_cases in Ha, Hb.
      destruct Ha as [->|[->|[->|[->|[->| ->]]]]];
        destruct Hb as [->|[->|[->|[->|[->| ->]]]]];
        simpl in H; try discriminate;
        f_equal; apply IH; now injection H.
    + exfalso. apply special_cases in Ha.
      assert (b = "&"%char) as ->.
      { destruct Ha as [->|[->|[->|[->|[->| ->]]]]]; simpl in H;
          now injection H. }
      discriminate.
    + exfalso. apply special_cases in Hb.
      assert (a = "&"%char) as ->.
      { destruct Hb as [->|[->|[->|[->|[->| ->]]]]]; simpl in H;
          now injection H. }
      discriminate.
    + injection H as -> H. f_equal. now apply IH.
Qed.

Lemma escape_injective_witness : "a<b" = "a<b".
Proof. apply (@escape_injective "a<b" "a<b" eq_refl). Defined.

(** ** ExpectationManager *)

Lemma check_complete_cases (m : ExpectationManager) :
  (_check_complete m = m
   /\ (outstanding m <> 0%Z \/ closed m = false \/ dead m = true))
  \/ (_check_complete m
      = mkExpectationManager true true 0 (S (onCompleteCalls m))
      /\ outstanding m = 0%Z /\ closed m = true /\ dead m = false).
Proof.
  unfold _check_complete.
  destruct (Z.eqb_spec (outstanding m) 0) as [Ho|Ho]; simpl; [|left; tauto].
  destruct (closed m) eqn:Hc; simpl; [|left; tauto].
  destruct (dead m) eqn:Hd; simpl; [left; tauto|].
  right. rewrite Ho. tauto.
Qed.

Lemma emStep_invariant (m : ExpectationManager) (c : emCall) :
  emInvariant m -> emInvariant (emStep m c).
Proof.
  unfold emInvariant. intros (Hcalls & Hrest).
  destruct c as [|check| |]; simpl.
  - unfold expect. destruct (closed m) eqn:Hc; simpl.
    + rewrite Hc. now split.
    + split; [|discriminate].
      destruct Hcalls as [H|(_ & _ & H)]; [now left|congruence].
  - unfold expectation. destruct check as [[]|e]; simpl; [|now split].
    match goal with |- context [_check_complete ?x] =>
      destruct (check_complete_cases x) as [(-> & Hno)|(-> & Ho & Hc & Hd)]
    end; simpl in *.
    + split; [assumption|]. intros Hc Ho.
      destruct Hno as [H|[H|H]]; congruence.
    + split; [|reflexivity]. right.
      destruct Hcalls as [->|(_ & H & _)]; [tauto|congruence].
  - unfold done.
    match goal with |- context [_check_complete ?x] =>
      destruct (check_complete_cases x) as [(-> & Hno)|(-> & Ho & Hc & Hd)]
    end; simpl in *.
    + split.
      * destruct Hcalls as [H|(H1 & H2 & H3)]; [now left|right; tauto].
      * intros _ Ho. destruct Hno as [H|[H|H]]; congruence.
    + split; [|reflexivity]. right.
      destruct Hcalls as [->|(_ & H & _)]; [tauto|congruence].
  - split; [|reflexivity].
    destruct Hcalls as [H|(H1 & H2 & H3)]; [now left|right; tauto].
Qed.

Lemma emRun_invariant (cs : list emCall) :
  forall m, emInvariant m -> emInvariant (emRun cs m).
Proof.
  induction cs as [|c cs IH]; intros m Hm; simpl; [assumption|].
  apply IH, emStep_invariant, Hm.
Qed.

(** X26. Whatever a test does with a new ExpectationManager, in whatever
    order, [onComplete] is called at most once, and when it was called
    the manager is closed and dead; and a manager that is closed with
    nothing outstanding is never left alive. *)
Theorem ExpectationManager_completes_once (cs : list emCall) :
  let m := emRun cs newExpectationManager in
  onCompleteCalls m <= 1
  /\ (onCompleteCalls m = 1 -> closed m = true /\ dead m = true)
  /\ (closed m = true -> outstanding m = 0%Z -> dead m = true).
Proof.
  intros m.
  assert (emInvariant m) as (Hcalls & Hrest).
  { apply emRun_invariant. split; [now left|discriminate]. }
  split; [|split; [|assumption]].
  - destruct Hcalls as [->|(-> & _)]; lia.
  - intros H1. destruct Hcalls as [H|(_ & Hd & Hc)]; [congruence|tauto].
Qed.

Lemma emStep_dead (m : ExpectationManager) (c : emCall) :
  dead m = true ->
  dead (emStep m c) = true
  /\ onCompleteCalls (emStep m c) = onCompleteCalls m.
Proof.
  intros Hd. destruct c as [|check| |]; simpl.
  - unfold expect. destruct (closed m); simpl; now split.
  - unfold expectation. destruct check as [[]|e]; simpl; [|now split].
    unfold _check_complete. simpl. rewrite Hd, !andb_false_r. simpl.
    now split.
  - unfold done, _check_complete. simpl. rewrite Hd, !andb_false_r. simpl.
    now split.
  - now split.
Qed.

Lemma emRun_dead (cs : list emCall) :
  forall m, dead m = true ->
            dead (emRun cs m) = true
            /\ onCompleteCalls (emRun cs m) = onCompleteCalls m.
Proof.
  induction cs as [|c cs IH]; intros m Hd; simpl; [now split|].
  destruct (emStep_dead m c Hd) as (Hd1 & Hc1).
  destruct (IH _ Hd1) as (Hd2 & Hc2). split; [assumption|congruence].
Qed.

(** X27. After [cancel], nothing a test does makes the manager call
    [onComplete]: the number of its calls stays what it was, and the
    manager stays dead. *)
Theorem ExpectationManager_cancel (m : ExpectationManager)
  (cs : list emCall) :
  onCompleteCalls (emRun cs (cancel m)) = onCompleteCalls m
  /\ dead (emRun cs (cancel m)) = true.
Proof.
  destruct (@emRun_dead cs (cancel m) eq_refl) as (Hd & Hc).
  split; [exact Hc|exact Hd].
Qed.

Lemma emStep_closed (m : ExpectationManager) (c : emCall) :
  closed m = true -> closed (emStep m c) = true.
Proof.
  intros Hc. destruct c as [|check| |]; simpl.
  - unfold expect. now rewrite Hc.
  - unfold expectation. destruct check as [[]|e]; simpl; [|assumption].
    unfold _check_complete. simpl.
    now destruct (_ && _ && _).
  - unfold done, _check_complete. simpl. now destruct (_ && _ && _).
  - assumption.
Qed.

Lemma emRun_closed (cs : list emCall) :
  forall m, closed m = true -> closed (emRun cs m) = true.
Proof.
  induction cs as [|c cs IH]; intros m Hc; simpl; [assumption|].
  apply IH, emStep_closed, Hc.
Qed.

(** X28. [expect] throws "Too late to add more expectations to the test"
    exactly on a closed manager, and then changes nothing; otherwise it
    adds one outstanding expectation.  Once [done] was called the manager
    stays closed, so every later [expect] throws. *)
Theorem ExpectationManager_expect (m : ExpectationManager) :
  (closed m = true -> expect m = (Throw tooLate, m))
  /\ (closed m = false ->
      fst (expect m) = Return tt
      /\ outstanding (snd (expect m)) = (outstanding m + 1)%Z
      /\ onCompleteCalls (snd (expect m)) = onCompleteCalls m)
  /\ (forall cs, expect (emRun cs (done m))
                 = (Throw tooLate, emRun cs (done m))).
Proof.
  split; [|split].
  - intros Hc. unfold expect. now rewrite Hc.
  - intros Hc. unfold expect. rewrite Hc. simpl. now repeat split.
  - intros cs. unfold expect.
    assert (closed (emRun cs (done m)) = true) as ->; [|reflexivity].
    apply emRun_closed. unfold done, _check_complete. simpl.
    now destruct (_ && _ && _).
Qed.

Lemma emRun_app (cs1 cs2 : list emCall) (m : ExpectationManager) :
  emRun (cs1 ++ cs2) m = emRun cs2 (emRun cs1 m).
Proof. apply fold_left_app. Qed.

Lemma emRun_expects (n : nat) :
  forall k,
    emRun (repeat CallExpect n) (mkExpectationManager false false (Z.of_nat k) 0)
    = mkExpectationManager false false (Z.of_nat (k + n)) 0.
Proof.
  induction n as [|n IH]; intros k.
  - simpl. now rewrite Nat.add_0_r.
  - cbn [repeat emRun fold_left emStep]. unfold expect at 1.
    cbn [closed dead outstanding onCompleteCalls snd].
    replace (Z.of_nat k + 1)%Z with (Z.of_nat (S k)) by lia.
    change (fold_left emStep ?cs ?m) with (emRun cs m).
    rewrite IH. f_equal. lia.
Qed.

Lemma emRun_expectations (j : nat) :
  forall k,
    onCompleteCalls
      (emRun (repeat (CallExpectation (Return tt)) j)
         (mkExpectationManager true false (Z.of_nat (S k)) 0))
    = if Nat.leb (S k) j then 1 else 0.
Proof.
  induction j as [|j IH]; intros k; [reflexivity|].
  cbn [repeat emRun fold_left emStep expectation snd].
  replace (outstanding (mkExpectationManager true false (Z.of_nat (S k)) 0) - 1)%Z
    with (Z.of_nat k) by (cbn [outstanding]; lia).
  destruct k as [|k].
  - cbn [closed dead onCompleteCalls]. unfold _check_complete. simpl.
    change (fold_left emStep (repeat (CallExpectation (Return tt)) j)
              (mkExpectationManager true true 0 1))
      with (emRun (repeat (CallExpectation (Return tt)) j)
              (mkExpectationManager true true 0 1)).
    now rewrite (proj2 (@emRun_dead _ (mkExpectationManager true true 0 1)
                          eq_refl)).
  - cbn [closed dead onCompleteCalls].
    assert (_check_complete
              (mkExpectationManager true false (Z.of_nat (S k)) 0)
            = mkExpectationManager true false (Z.of_nat (S k)) 0) as ->.
    { unfold _check_complete. simpl. reflexivity. }
    apply IH.
Qed.

(** X29. The use a test makes of it: after [n] calls of [expect], then
    [done], then [j] calls of returned callbacks whose checks pass,
    [onComplete] has been called once if [j] is at least [n] and not at
    all otherwise; with nothing expected, [done] itself completes. *)
Theorem ExpectationManager_protocol (n j : nat) :
  onCompleteCalls
    (emRun (repeat CallExpect n ++ CallDone
              :: repeat (CallExpectation (Return tt)) j)
       newExpectationManager)
  = if Nat.leb n j then 1 else 0.
Proof.
  rewrite emRun_app. unfold newExpectationManager.
  change (mkExpectationManager false false 0 0)
    with (mkExpectationManager false false (Z.of_nat 0) 0).
  rewrite (emRun_expects n 0). cbn [Nat.add emRun fold_left emStep].
  change (fold_left emStep ?cs ?m) with (emRun cs m).
  destruct n as [|n].
  - unfold done, _check_complete. simpl.
    now rewrite (proj2 (@emRun_dead _ (mkExpectationManager true true 0 1)
                          eq_refl)).
  - assert (done (mkExpectationManager false false (Z.of_nat (S n)) 0)
            = mkExpectationManager true false (Z.of_nat (S n)) 0) as ->.
    { unfold done, _check_complete. simpl. reflexivity. }
    apply emRun_expectations.
Qed.

